(** * AI_Pdf_Organizer: the normalisation and placement pipeline of [main.py]

    A shallow embedding of [src/main.py].  Python strings are sequences of
    Unicode code points ([list N]); the string methods the script calls
    ([strip], [split], [lower], [upper], [title], [capitalize], [replace],
    [in], [endswith]) follow CPython's [unicodeobject.c].  The script's I/O
    (directory listing, PyMuPDF, the Gemini client, [json.loads],
    [os.makedirs], [shutil.copy2]) is an environment of oracles; its effects
    are recorded, in order, in a trace of events.  What the module does
    when it is loaded (reading the API key, creating the client and the log
    folder) comes before [main] and is not part of the model. *)

From Stdlib Require Import String Ascii NArith List Lia.
From stdpp Require Import gmap list.

#[local] Set Warnings "-clear-no-such-hyp".
Local Open Scope N_scope.

(** ** Unicode character database *)

Module Unicode.

Definition in_range (lo hi c : N) : bool := (lo <=? c) && (c <=? hi).

(** [_PyUnicode_IsWhitespace]: the complete list of code points for which
    [str.isspace], [str.strip()] and [str.split()] see white space. *)
Definition isspace (c : N) : bool :=
  in_range 0x09 0x0D c || in_range 0x1C 0x1F c || (c =? 0x20)
  || (c =? 0x85) || (c =? 0xA0) || (c =? 0x1680)
  || in_range 0x2000 0x200A c || (c =? 0x2028) || (c =? 0x2029)
  || (c =? 0x202F) || (c =? 0x205F) || (c =? 0x3000).

(** The database is written out for Basic Latin and Latin-1 Supplement
    (U+0000..U+00FF); above, it is the parameter [ucd]. *)
Class ucd : Type := {
  hi_isalnum : N -> bool;
  hi_iscased : N -> bool;
  hi_case_ignorable : N -> bool;
  hi_tolower : N -> list N;
  hi_toupper : N -> list N;
  hi_totitle : N -> list N
}.

Definition latin1_upper_letter (c : N) : bool :=
  in_range 0x41 0x5A c || (in_range 0xC0 0xDE c && negb (c =? 0xD7)).

Definition latin1_lower_letter (c : N) : bool :=
  in_range 0x61 0x7A c || (in_range 0xDF 0xFF c && negb (c =? 0xF7)).

Definition latin1_iscased (c : N) : bool :=
  latin1_upper_letter c || latin1_lower_letter c
  || (c =? 0xAA) || (c =? 0xB5) || (c =? 0xBA).

Definition latin1_case_ignorable (c : N) : bool :=
  (c =? 0x27) || (c =? 0x2E) || (c =? 0x3A) || (c =? 0x5E) || (c =? 0x60)
  || (c =? 0xA8) || (c =? 0xAD) || (c =? 0xAF) || (c =? 0xB4)
  || (c =? 0xB7) || (c =? 0xB8).

Definition latin1_isalnum (c : N) : bool :=
  in_range 0x30 0x39 c || latin1_upper_letter c || latin1_lower_letter c
  || (c =? 0xAA) || (c =? 0xB2) || (c =? 0xB3) || (c =? 0xB5)
  || (c =? 0xB9) || (c =? 0xBA) || in_range 0xBC 0xBE c.

Definition latin1_tolower (c : N) : list N :=
  if latin1_upper_letter c then [c + 32] else [c].

Definition latin1_toupper (c : N) : list N :=
  if c =? 0xB5 then [0x39C]
  else if c =? 0xDF then [0x53; 0x53]
  else if c =? 0xFF then [0x178]
  else if latin1_lower_letter c then [c - 32] else [c].

Definition latin1_totitle (c : N) : list N :=
  if c =? 0xDF then [0x53; 0x73] else latin1_toupper c.

Section Database.
Context {U : ucd}.

Definition is_latin1 (c : N) : bool := c <? 0x100.

Definition isalnum (c : N) : bool :=
  if is_latin1 c then latin1_isalnum c else hi_isalnum c.
Definition iscased (c : N) : bool :=
  if is_latin1 c then latin1_iscased c else hi_iscased c.
Definition case_ignorable (c : N) : bool :=
  if is_latin1 c then latin1_case_ignorable c else hi_case_ignorable c.
Definition tolower (c : N) : list N :=
  if is_latin1 c then latin1_tolower c else hi_tolower c.
Definition toupper (c : N) : list N :=
  if is_latin1 c then latin1_toupper c else hi_toupper c.
Definition totitle (c : N) : list N :=
  if is_latin1 c then latin1_totitle c else hi_totitle c.
End Database.

(** A database that knows no letters, digits or case above U+00FF. *)
Definition latin1_only : ucd :=
  {| hi_isalnum := fun _ => false;
     hi_iscased := fun _ => false;
     hi_case_ignorable := fun _ => false;
     hi_tolower := fun c => [c];
     hi_toupper := fun c => [c];
     hi_totitle := fun c => [c] |}.

End Unicode.

(** ** Python [str] *)

Module PyStr.
Import Unicode.

Definition str : Type := list N.

(** A literal of the script, for Basic Latin text. *)
Definition s2l (s : string) : str := map N_of_ascii (list_ascii_of_string s).
Arguments s2l s%_string.

Definition nonempty {A} (l : list A) : bool :=
  match l with [] => false | _ :: _ => true end.

Fixpoint dropwhile {A} (p : A -> bool) (l : list A) : list A :=
  match l with
  | [] => []
  | x :: l' => if p x then dropwhile p l' else l
  end.

(** [s.strip()] *)
Definition lstrip (s : str) : str := dropwhile isspace s.
Definition rstrip (s : str) : str := rev (dropwhile isspace (rev s)).
Definition strip (s : str) : str := rstrip (lstrip s).

(** [s.split()]: the loop of [split_whitespace]; [cur] is the word being
    read, last character first. *)
Fixpoint split_from (cur : str) (s : str) : list str :=
  match s with
  | [] => if nonempty cur then [rev cur] else []
  | c :: s' =>
      if isspace c
      then (if nonempty cur then rev cur :: split_from [] s'
            else split_from [] s')
      else split_from (c :: cur) s'
  end.
Definition split (s : str) : list str := split_from [] s.

(** A word: at least one character, none of them white space. *)
Definition word (w : str) : bool :=
  nonempty w && forallb (fun c => negb (isspace c)) w.

(** [sep.join(ws)] *)
Fixpoint join (sep : str) (ws : list str) : str :=
  match ws with
  | [] => []
  | [w] => w
  | w :: ws' => w ++ sep ++ join sep ws'
  end.

Fixpoint is_prefix (p s : str) : bool :=
  match p, s with
  | [], _ => true
  | _ :: _, [] => false
  | a :: p', b :: s' => (a =? b) && is_prefix p' s'
  end.

(** [s.startswith(p)], [s.endswith(p)], [k in s] *)
Definition startswith (s p : str) : bool := is_prefix p s.
Definition endswith (s p : str) : bool := is_prefix (rev p) (rev s).
Fixpoint str_in (k s : str) : bool :=
  is_prefix k s || match s with [] => false | _ :: s' => str_in k s' end.

(** [s.replace(old, new)] for a non-empty [old]: [skip] counts the
    characters of a match still to be passed over. *)
Fixpoint replace_from (old new : str) (skip : nat) (s : str) : str :=
  match s with
  | [] => []
  | c :: s' =>
      match skip with
      | S k => replace_from old new k s'
      | O => if is_prefix old s
             then new ++ replace_from old new (pred (length old)) s'
             else c :: replace_from old new O s'
      end
  end.
Definition replace (s old new : str) : str := replace_from old new O s.

Section Case.
Context {U : ucd}.

(** [handle_capital_sigma]: U+03A3 lowers to the final form U+03C2 when
    a cased letter precedes it and none follows, case-ignorable
    characters apart. [before] is the text before it, nearest first. *)
Definition final_sigma (before after : str) : bool :=
  match dropwhile case_ignorable before with
  | [] => false
  | c :: _ =>
      iscased c &&
      match dropwhile case_ignorable after with
      | [] => true
      | d :: _ => negb (iscased d)
      end
  end.

Definition lower_ucs4 (before : str) (c : N) (after : str) : list N :=
  if c =? 0x3A3
  then [if final_sigma before after then 0x3C2 else 0x3C3]
  else tolower c.

Fixpoint lower_from (before : str) (s : str) : str :=
  match s with
  | [] => []
  | c :: s' => lower_ucs4 before c s' ++ lower_from (c :: before) s'
  end.

(** [s.lower()], [s.upper()] *)
Definition lower (s : str) : str := lower_from [] s.
Definition upper (s : str) : str := flat_map toupper s.

(** [s.capitalize()]: the first character in title case, the others
    lowered. *)
Definition capitalize (s : str) : str :=
  match s with
  | [] => []
  | c :: s' => totitle c ++ lower_from [c] s'
  end.

(** [s.title()]: a character after a cased one is lowered, any other is
    put in title case. *)
Fixpoint title_from (prev_cased : bool) (before : str) (s : str) : str :=
  match s with
  | [] => []
  | c :: s' =>
      (if prev_cased then lower_ucs4 before c s' else totitle c)
      ++ title_from (iscased c) (c :: before) s'
  end.
Definition title (s : str) : str := title_from false [] s.
End Case.

End PyStr.

(** ** Taxonomy normaliser *)

Module Normalizer.
Import Unicode PyStr.

Definition country_aliases : list (str * str) :=
  [ (s2l "usa", s2l "United States");
    (s2l "us", s2l "United States");
    (s2l "u.s.", s2l "United States");
    (s2l "u.s.a", s2l "United States");
    (s2l "estados unidos", s2l "United States");
    (s2l "america", s2l "United States");
    (s2l "united states of america", s2l "United States");
    (s2l "uk", s2l "United Kingdom");
    (s2l "u.k.", s2l "United Kingdom");
    (s2l "england", s2l "United Kingdom");
    (s2l "britain", s2l "United Kingdom");
    (s2l "great britain", s2l "United Kingdom");
    (s2l "brasil", s2l "Brazil");
    (s2l "brazil", s2l "Brazil");
    (s2l "argentina", s2l "Argentina");
    (s2l "chile", s2l "Chile");
    (s2l "spain", s2l "Spain");
    (s2l "espanha", s2l "Spain");
    (s2l "china", s2l "China");
    (s2l "korea", s2l "South Korea");
    (s2l "south korea", s2l "South Korea");
    (s2l "japan", s2l "Japan");
    (s2l "thailand", s2l "Thailand");
    (s2l "india", s2l "India");
    (s2l "switzerland", s2l "Switzerland");
    (s2l "suisse", s2l "Switzerland");
    (s2l "schweiz", s2l "Switzerland");
    (s2l "nederland", s2l "Netherlands");
    (s2l "holland", s2l "Netherlands");
    (s2l "netherlands", s2l "Netherlands");
    (s2l "uae", s2l "United Arab Emirates");
    (s2l "emirates", s2l "United Arab Emirates");
    (s2l "dubai", s2l "United Arab Emirates");
    (s2l "hong kong", s2l "China") ].

(** The dict [COUNTRY_NORMALIZATION]. *)
Definition COUNTRY_NORMALIZATION : gmap str str := list_to_map country_aliases.

(** [d.get(k, dflt)] *)
Definition dict_get (d : gmap str str) (k : str) (dflt : str) : str :=
  default dflt (d !! k).

Section Normalize.
Context {U : ucd}.

Definition country_key (country : str) : str := lower (strip country).
Definition country_key2 (country : str) : str :=
  strip (List.filter (fun ch => isalnum ch || isspace ch) (country_key country)).

Definition normalize_country (country : str) : str :=
  if negb (nonempty country) then []
  else
    let key := country_key country in
    let key2 := country_key2 country in
    dict_get COUNTRY_NORMALIZATION key
      (dict_get COUNTRY_NORMALIZATION key2 (title (strip country))).

Definition normalize_city (city : str) : str :=
  if negb (nonempty city) then []
  else join (s2l " ") (map capitalize (split (strip city))).

(** [continent_raw.upper()], line 242 of [main]. *)
Definition normalize_continent (continent_raw : str) : str :=
  upper continent_raw.

(** City normalisation as the specification words it: the first
    character of a word upper-cased, the remainder kept as it is. *)
Definition spec_capitalize (w : str) : str :=
  match w with
  | [] => []
  | c :: r => toupper c ++ r
  end.
Definition spec_normalize_city (city : str) : str :=
  join (s2l " ") (map spec_capitalize (split (strip city))).

(** Continent normalisation as the specification words it. *)
Definition spec_normalize_continent (continent_raw : str) : str :=
  upper (strip continent_raw).
End Normalize.

End Normalizer.

(** ** [os.path] (POSIX flavour) *)

Module PosixPath.
Import PyStr.

Definition sep : str := s2l "/".

(** One round of the loop of [os.path.join]: a component that starts with
    the separator discards what was joined before it. *)
Definition join_step (path b : str) : str :=
  if startswith b sep then b
  else if negb (nonempty path) || endswith path sep then path ++ b
  else path ++ sep ++ b.

(** [os.path.join(a, *p)] *)
Definition path_join (a : str) (p : list str) : str := fold_left join_step p a.

(** [path.split("/")]: the segments of a path. *)
Fixpoint segments_from (cur : str) (s : str) : list str :=
  match s with
  | [] => [rev cur]
  | c :: s' =>
      if c =? 0x2F then rev cur :: segments_from [] s'
      else segments_from (c :: cur) s'
  end.
Definition segments (path : str) : list str := segments_from [] path.

(** No separator inside a segment. *)
Definition sep_free (s : str) : bool := forallb (fun c => negb (c =? 0x2F)) s.

End PosixPath.

(** ** The script *)

Module Organizer.
Import Unicode PyStr Normalizer PosixPath.

(** *** Values returned by [json.loads] *)

#[local] Unset Elimination Schemes.
Inductive value : Type :=
| VNone
| VBool (b : bool)
| VInt (z : Z)
| VFloat (is_zero : bool)           (* a float, as far as [bool()] sees it *)
| VStr (s : str)
| VList (items : list value)
| VDict (items : list (str * value)). (* keys are distinct, as in a dict *)
#[local] Set Elimination Schemes.

(** [bool(v)] *)
Definition truthy (v : value) : bool :=
  match v with
  | VNone => false
  | VBool b => b
  | VInt z => negb (z =? 0)%Z
  | VFloat is_zero => negb is_zero
  | VStr s => nonempty s
  | VList items => nonempty items
  | VDict items => nonempty items
  end.

(** [a or b] *)
Definition py_or (a b : value) : value := if truthy a then a else b.

(** [d.get(k)] on a dict *)
Fixpoint dict_lookup (k : str) (items : list (str * value)) : value :=
  match items with
  | [] => VNone
  | (k', v) :: items' => if bool_decide (k = k') then v else dict_lookup k items'
  end.

(** *** Effects *)

Inductive logfile : Type := LOG_GENERAL | LOG_RAW | LOG_JSON.

(** The texts the script prints and logs, one constructor per format
    string. *)
Inductive message : Type :=
| MsgHeader (title : str)            (* "=== {title} | {now} ===" *)
| MsgStarting                        (* "Starting intelligent organization..." *)
| MsgProcessing (filename : str)     (* "Processing: {filename}" *)
| MsgIgnoredRule                     (* "  -> Ignored (keyword rule)." *)
| MsgIgnored (filename : str)        (* "[IGNORED] {filename}" *)
| MsgNoText                          (* "  -> No readable text." *)
| MsgNoDestinations                  (* "  -> No destinations detected." *)
| MsgDetected                        (* "  -> Detected destinations:" *)
| MsgRaw (city country continent : value) (* "     raw -> city=..." *)
| MsgIncomplete (filename : str) (d : value) (* "[INCOMPLETE] {filename} -> {d}" *)
| MsgAlreadyCopied                   (* "     -> Already copied (skipping)." *)
| MsgCopied (final_dir : str)        (* "     -> Copied to: {final_dir}" *)
| MsgCopyError                       (* "     -> Copy error: {e}" *)
| MsgBlank                           (* an empty line *)
| MsgDone                            (* "--- Done ---" *)
| MsgCannotRead (pdf_path : str)     (* "[ERROR] Cannot read PDF ..." *)
| MsgPdf (filename : str)            (* "[PDF] {filename}" *)
| MsgPrompt (filename text : str)    (* "[PROMPT]..." *)
| MsgRawResponse (filename raw : str) (* "[RAW - {filename}]..." *)
| MsgJsonError (filename : str)      (* "[JSON ERROR] {filename}" *)
| MsgParseError                      (* "Parse error: {e}" *)
| MsgReturned (raw : str)            (* "Returned:..." *)
| MsgApiError (filename : str).      (* "[API ERROR] {filename} -> {e}" *)

Inductive event : Type :=
| Printed (m : message)
| Logged (f : logfile) (m : message)
| Listdir (folder : str)
| Makedirs (path : str) (ok : bool)
| FitzOpen (pdf_path : str)
| GenerateContent (filename text : str)
| Copy2 (src dst : str) (ok : bool).

Inductive exn : Type := AttributeError | TypeError | OSError.

Inductive result (A : Type) : Type :=
| Ok (a : A)
| Raise (e : exn).
Arguments Ok {A} a.
Arguments Raise {A} e.

(** The set [copied] of [main] and what the run has done so far. *)
Record world : Type := World { copied : gset (str * str); trace : list event }.

(** The collaborators of the script. [None] stands for a raised
    exception. [generate_content filename text] is [response.text] for the
    prompt built from the two. What [os.makedirs] and [shutil.copy2] do may
    depend on everything that happened before. Writing to the logs and
    printing are taken to succeed. *)
Class env : Type := {
  abspath : str -> str;
  listdir : str -> option (list str);
  pdf_pages : str -> option (list str);
  generate_content : str -> str -> option str;
  json_loads : str -> option value;
  makedirs_ok : list event -> str -> bool;
  copy2_ok : list event -> str -> str -> bool
}.

Definition M (A : Type) : Type := world -> result A * world.

Definition ret {A} (a : A) : M A := fun w => (Ok a, w).
Definition raise {A} (e : exn) : M A := fun w => (Raise e, w).
Definition bind {A B} (m : M A) (k : A -> M B) : M B :=
  fun w =>
    match m w with
    | (Ok a, w') => k a w'
    | (Raise e, w') => (Raise e, w')
    end.
Definition lift {A} (r : result A) : M A := fun w => (r, w).

Notation "'let*' x ':=' m 'in' k" := (bind m (fun x => k))
  (at level 10, x name, m at level 100, k at level 200).
Notation "m1 >> m2" := (bind m1 (fun _ => m2))
  (at level 80, right associativity).

(** [w] with the events [evs] appended, [copied] as it was. *)
Definition extend (w : world) (evs : list event) : world :=
  World (copied w) (trace w ++ evs).

Definition emit (e : event) : M unit := fun w => (Ok tt, extend w [e]).
Definition print (m : message) : M unit := emit (Printed m).
Definition log (f : logfile) (m : message) : M unit := emit (Logged f m).

(** [for x in xs: body] *)
Fixpoint for_each {A} (xs : list A) (body : A -> M unit) : M unit :=
  match xs with
  | [] => ret tt
  | x :: xs' => body x >> for_each xs' body
  end.

Definition SOURCE_FOLDER : str := s2l "PDFsForOrganizer".
Definition DESTINATION_FOLDER : str := s2l "OrganizerPdfs".
Definition IGNORE_KEYWORDS : list str := [ []; [] ].
Definition PAGE_EXTRACT_LIMIT : nat := 2.

Definition log_header (title : str) : M unit :=
  log LOG_GENERAL (MsgHeader title) >>
  log LOG_RAW (MsgHeader title) >>
  log LOG_JSON (MsgHeader title).

(** [any(k in filename.lower() for k in keywords)] *)
Definition keyword_filter {U : ucd} (keywords : list str) (filename : str) : bool :=
  existsb (fun k => str_in k (lower filename)) keywords.

(** [os.path.join(DESTINATION_FOLDER, continent, country, city)] and the
    file copied into it *)
Definition destination_dir (continent country city : str) : str :=
  path_join DESTINATION_FOLDER [continent; country; city].
Definition destination_file (continent country city filename : str) : str :=
  path_join (destination_dir continent country city) [filename].

(** The path as the specification words it: root, continent, country and
    city, one segment each. *)
Definition spec_destination_dir (continent country city : str) : str :=
  DESTINATION_FOLDER ++ sep ++ continent ++ sep ++ country ++ sep ++ city.

(** [d.get(k1) or d.get(k2) or the empty string] *)
Definition get_field (d : value) (k1 k2 : str) : result value :=
  match d with
  | VDict items => Ok (py_or (py_or (dict_lookup k1 items) (dict_lookup k2 items)) (VStr []))
  | _ => Raise AttributeError
  end.

Definition complete (city country continent : str) : bool :=
  nonempty city && nonempty country && nonempty continent.

Section Run.
Context {U : ucd} {E : env}.

(** [normalize_city], [normalize_country] and [.upper()] applied to
    whatever the record holds: a true value that is not a string has
    no [strip] or [upper]. *)
Definition call_normalize_city (v : value) : result str :=
  if negb (truthy v) then Ok []
  else match v with
       | VStr s => Ok (normalize_city s)
       | _ => Raise AttributeError
       end.
Definition call_normalize_country (v : value) : result str :=
  if negb (truthy v) then Ok []
  else match v with
       | VStr s => Ok (normalize_country s)
       | _ => Raise AttributeError
       end.
Definition call_upper (v : value) : result str :=
  match v with
  | VStr s => Ok (normalize_continent s)
  | _ => Raise AttributeError
  end.

Definition makedirs (path : str) : M unit :=
  fun w =>
    let ok := makedirs_ok (trace w) path in
    (if ok then Ok tt else Raise OSError, extend w [Makedirs path ok]).

(** [shutil.copy2(src, dst)] inside [try]: [true] when it returned. *)
Definition copy2 (src dst : str) : M bool :=
  fun w =>
    let ok := copy2_ok (trace w) src dst in
    (Ok ok, extend w [Copy2 src dst ok]).

Definition key_in_copied (key : str * str) : M bool :=
  fun w => (Ok (bool_decide (key ∈ copied w)), w).
Definition add_copied (key : str * str) : M unit :=
  fun w => (Ok tt, World ({[ key ]} ∪ copied w) (trace w)).
Definition new_copied : M unit :=
  fun w => (Ok tt, World ∅ (trace w)).

Definition os_listdir (folder : str) : M (list str) :=
  emit (Listdir folder) >>
  match listdir folder with
  | Some names => ret names
  | None => raise OSError
  end.

Definition extract_text (pdf_path : str) (limit : nat) : M str :=
  emit (FitzOpen pdf_path) >>
  match pdf_pages pdf_path with
  | Some pages =>
      ret (flat_map (fun page => page ++ [0x0A])
             (take (Nat.min limit (length pages)) pages))
  | None => log LOG_GENERAL (MsgCannotRead pdf_path) >> ret []
  end.

(** Line 185: both code fences replaced by nothing, then [strip()]. *)
Definition cleaned (raw : str) : str :=
  strip (replace (replace raw (s2l "```json") []) (s2l "```") []).

Definition analyze_text_with_gemini (text filename : str) : M value :=
  log LOG_GENERAL (MsgPdf filename) >>
  log LOG_GENERAL (MsgPrompt filename text) >>
  emit (GenerateContent filename text) >>
  match generate_content filename text with
  | Some response_text =>
      let raw := strip response_text in
      log LOG_RAW (MsgRawResponse filename raw) >>
      match json_loads (cleaned raw) with
      | Some v => ret v
      | None =>
          log LOG_JSON (MsgJsonError filename) >>
          log LOG_JSON MsgParseError >>
          log LOG_JSON (MsgReturned raw) >>
          ret (VList [])
      end
  | None => log LOG_GENERAL (MsgApiError filename) >> ret (VList [])
  end.

(** What [for d in destinations] goes through. *)
Definition iterate (v : value) : result (list value) :=
  match v with
  | VList items => Ok items
  | VDict items => Ok (map (fun kv => VStr (fst kv)) items)
  | VStr s => Ok (map (fun c => VStr [c]) s)
  | _ => Raise TypeError
  end.

(** The body of [for d in destinations], lines 234-263. *)
Definition process_destination (filename src : str) (d : value) : M unit :=
  let* city_raw := lift (get_field d (s2l "city") (s2l "cidade")) in
  let* country_raw := lift (get_field d (s2l "country") (s2l "pais")) in
  let* continent_raw := lift (get_field d (s2l "continent") (s2l "continente")) in
  print (MsgRaw city_raw country_raw continent_raw) >>
  let* city := lift (call_normalize_city city_raw) in
  let* country := lift (call_normalize_country country_raw) in
  let* continent := lift (call_upper continent_raw) in
  if negb (complete city country continent) then
    log LOG_JSON (MsgIncomplete filename d)
  else
    let final_dir := destination_dir continent country city in
    makedirs final_dir >>
    let dst := path_join final_dir [filename] in
    let key := (abspath src, abspath dst) in
    let* seen := key_in_copied key in
    if seen then print MsgAlreadyCopied
    else
      let* ok := copy2 src dst in
      if ok then add_copied key >> print (MsgCopied final_dir)
      else print MsgCopyError.

(** Lines 221-265: a PDF that passed the keyword filter. *)
Definition process_pdf (filename src : str) : M unit :=
  let* text := extract_text src PAGE_EXTRACT_LIMIT in
  if negb (nonempty (strip text)) then print MsgNoText
  else
    let* destinations := analyze_text_with_gemini text filename in
    if negb (truthy destinations) then print MsgNoDestinations
    else
      print MsgDetected >>
      let* ds := lift (iterate destinations) in
      for_each ds (process_destination filename src) >>
      print MsgBlank.

(** The body of [for filename in os.listdir(SOURCE_FOLDER)]. *)
Definition process_file (keywords : list str) (filename : str) : M unit :=
  if negb (endswith (lower filename) (s2l ".pdf")) then ret tt
  else
    print (MsgProcessing filename) >>
    let src := path_join SOURCE_FOLDER [filename] in
    if keyword_filter keywords filename then
      print MsgIgnoredRule >> log LOG_GENERAL (MsgIgnored filename)
    else process_pdf filename src.

(** [main], for a given list of ignore keywords. *)
Definition main_with (keywords : list str) : M unit :=
  log_header (s2l "START") >>
  makedirs DESTINATION_FOLDER >>
  print MsgStarting >>
  new_copied >>
  let* names := os_listdir SOURCE_FOLDER in
  for_each names (process_file keywords) >>
  log_header (s2l "END") >>
  print MsgDone.

Definition main : M unit := main_with IGNORE_KEYWORDS.
End Run.

Definition start : world := World ∅ [].

End Organizer.

Import Unicode PyStr Normalizer PosixPath Organizer.

(** ** Vocabulary of the statements *)

Module Behaviour.
Import Unicode PyStr Normalizer PosixPath Organizer.

Definition rbind {A B} (r : result A) (k : A -> result B) : result B :=
  match r with
  | Ok a => k a
  | Raise e => Raise e
  end.

Section Vocabulary.
Context {U : ucd} {E : env}.

(** What lines 234-242 compute from a record: the line printed and the
    normalised city, country and continent. *)
Definition resolve (d : value) : result (message * (str * str * str)) :=
  rbind (get_field d (s2l "city") (s2l "cidade")) (fun city_raw =>
  rbind (get_field d (s2l "country") (s2l "pais")) (fun country_raw =>
  rbind (get_field d (s2l "continent") (s2l "continente")) (fun continent_raw =>
  rbind (call_normalize_city city_raw) (fun city =>
  rbind (call_normalize_country country_raw) (fun country =>
  rbind (call_upper continent_raw) (fun continent =>
  Ok (MsgRaw city_raw country_raw continent_raw, (city, country, continent)))))))).

(** The placement key of line 252. *)
Definition key_of (src dst : str) : str * str := (abspath src, abspath dst).






(** The classification of [filename] gives nothing to parse: the call
    raised, or [json.loads] raised on the cleaned response. *)
Definition classification_failed (text filename : str) : bool :=
  match generate_content filename text with
  | None => true
  | Some response_text =>
      match json_loads (cleaned (strip response_text)) with
      | None => true
      | Some _ => false
      end
  end.

(** What [extract_text] returns and the events it leaves. *)
Definition extracted (pdf_path : str) : str :=
  match pdf_pages pdf_path with
  | Some pages =>
      flat_map (fun page => page ++ [0x0A])
        (take (Nat.min PAGE_EXTRACT_LIMIT (length pages)) pages)
  | None => []
  end.
Definition extraction_events (pdf_path : str) : list event :=
  FitzOpen pdf_path ::
  match pdf_pages pdf_path with
  | Some _ => []
  | None => [Logged LOG_GENERAL (MsgCannotRead pdf_path)]
  end.

(** What [analyze_text_with_gemini] leaves when the classification
    fails. *)
Definition failure_events (text filename : str) : list event :=
  [ Logged LOG_GENERAL (MsgPdf filename); Logged LOG_GENERAL (MsgPrompt filename text);
    GenerateContent filename text ] ++
  match generate_content filename text with
  | None => [Logged LOG_GENERAL (MsgApiError filename)]
  | Some response_text =>
      [ Logged LOG_RAW (MsgRawResponse filename (strip response_text));
        Logged LOG_JSON (MsgJsonError filename); Logged LOG_JSON MsgParseError;
        Logged LOG_JSON (MsgReturned (strip response_text)) ]
  end.

(** What [main] does for a name of the listing when the keyword filter
    matches it. *)
Definition ignored_events (filename : str) : list event :=
  if endswith (lower filename) (s2l ".pdf")
  then [ Printed (MsgProcessing filename); Printed MsgIgnoredRule;
         Logged LOG_GENERAL (MsgIgnored filename) ]
  else [].
End Vocabulary.

(** An event that reads, classifies or places a document. *)
Definition touches_document (e : event) : bool :=
  match e with
  | FitzOpen _ | GenerateContent _ _ | Copy2 _ _ _ => true
  | Makedirs path _ => negb (bool_decide (path = DESTINATION_FOLDER))
  | _ => false
  end.

Definition is_copy2 (e : event) : bool :=
  match e with Copy2 _ _ _ => true | _ => false end.

Definition is_placement (e : event) : bool :=
  match e with
  | Makedirs _ _ | Copy2 _ _ _ => true
  | _ => false
  end.

Definition preserves {A} (I : world -> Prop) (m : M A) : Prop :=
  forall w, I w -> I (snd (m w)).

Definition header (title : str) : list event :=
  [ Logged LOG_GENERAL (MsgHeader title); Logged LOG_RAW (MsgHeader title);
    Logged LOG_JSON (MsgHeader title) ].

End Behaviour.

Import Behaviour.

(** ** Concrete runs *)

Module Scenario.
Import Unicode PyStr Normalizer PosixPath Organizer Behaviour.

Definition paris : value :=
  VDict [ (s2l "city", VStr (s2l "paris")); (s2l "country", VStr (s2l "France"));
          (s2l "continent", VStr (s2l "europe")) ].

Definition tokyo : value :=
  VDict [ (s2l "cidade", VStr (s2l "tokyo")); (s2l "pais", VStr (s2l "japan"));
          (s2l "continente", VStr (s2l "asia")) ].

Definition no_country : value :=
  VDict [ (s2l "city", VStr (s2l "Paris")); (s2l "country", VStr []);
          (s2l "continent", VStr (s2l "europe")) ].

(** One readable PDF whose classification names Paris three times; the
    first call of [shutil.copy2] of the run raises, later ones return. *)
Definition flaky_disk : env :=
  {| abspath := fun p => s2l "/home/user/" ++ p;
     listdir := fun _ => Some [s2l "trip.pdf"];
     pdf_pages := fun _ => Some [s2l "Itinerary: Paris"];
     generate_content := fun _ _ => Some (s2l "```json [3 x paris] ```");
     json_loads := fun _ => Some (VList [paris; paris; paris]);
     makedirs_ok := fun _ _ => true;
     copy2_ok := fun history _ _ => existsb is_copy2 history |}.

(** The same folder when the call to the model raises. *)
Definition offline : env :=
  {| abspath := fun p => s2l "/home/user/" ++ p;
     listdir := fun _ => Some [s2l "trip.pdf"; s2l "visa.pdf"];
     pdf_pages := fun _ => Some [s2l "Itinerary: Paris"];
     generate_content := fun _ _ => None;
     json_loads := fun _ => None;
     makedirs_ok := fun _ _ => true;
     copy2_ok := fun _ _ _ => true |}.

Definition trip_src : str := path_join SOURCE_FOLDER [s2l "trip.pdf"].
Definition paris_dir : str := s2l "OrganizerPdfs/EUROPE/France/Paris".
Definition paris_dst : str := s2l "OrganizerPdfs/EUROPE/France/Paris/trip.pdf".
Definition paris_raw : message :=
  MsgRaw (VStr (s2l "paris")) (VStr (s2l "France")) (VStr (s2l "europe")).



End Scenario.

(** ** Vocabulary of the further properties *)

Module Coverage.
Import Unicode PyStr Normalizer PosixPath Organizer Behaviour.

(** U+0000..U+00FF, for checks that go through the whole Latin-1 table. *)
Definition latin1_range : list N := map N.of_nat (seq 0 256).

Definition notspace (c : N) : bool := negb (isspace c).

(** What a Latin-1 character becomes in the first place of a capitalised
    word and in the others keeps a word a word, and lowering leaves no
    Latin-1 capital. *)
Definition latin1_case_keeps_words (c : N) : bool :=
  isspace c
  || (nonempty (latin1_totitle c) && forallb notspace (latin1_totitle c)
      && forallb notspace (latin1_tolower c)).
Definition latin1_lower_has_no_capital (c : N) : bool :=
  forallb (fun l => negb (latin1_upper_letter l)) (latin1_tolower c).

(** What holds of an alias and its canonical name. *)
Definition alias_checks {U : ucd} (kv : str * str) : Prop :=
  normalize_country (fst kv) = snd kv
  /\ normalize_country (upper (fst kv)) = snd kv
  /\ normalize_country (snd kv) = snd kv.

(** No backtick in a text. *)
Definition backtick_free (s : str) : bool := forallb (fun c => negb (0x60 =? c)) s.

Definition is_list (v : value) : bool :=
  match v with VList _ => true | _ => false end.

(** What [for d in v] ends with when [v] is true and no list: a number or
    [True] cannot be iterated, the keys of a dict and the characters of a
    string have no [get]. *)
Definition iteration_error (v : value) : exn :=
  match v with
  | VDict _ | VStr _ => AttributeError
  | _ => TypeError
  end.

Definition is_dict (v : value) : bool :=
  match v with VDict _ => true | _ => false end.

(** A true value that is no string: it has neither [strip] nor [upper]. *)
Definition no_string (v : value) : bool :=
  truthy v && match v with VStr _ => false | _ => true end.

(** A record holds nothing true under either name of a field. *)
Definition field_missing (items : list (str * value)) (k1 k2 : str) : bool :=
  negb (truthy (dict_lookup k1 items)) && negb (truthy (dict_lookup k2 items)).

Definition is_end_header (e : event) : bool :=
  match e with
  | Logged _ (MsgHeader title) => bool_decide (title = s2l "END")
  | _ => false
  end.
Definition no_end_header (tr : list event) : Prop :=
  Forall (fun e => is_end_header e = false) tr.

(** Every event of the trace is one of those [ok] allows. *)
Definition trace_inv (ok : event -> Prop) (w : world) : Prop :=
  Forall ok (trace w).

Definition is_header (m : message) : bool :=
  match m with MsgHeader _ => true | _ => false end.

Section CoverageVocabulary.
Context {U : ucd} {E : env}.

(** The PDF cannot be opened, or the pages that are read hold white space
    only. *)
Definition unreadable (pdf_path : str) : bool :=
  match pdf_pages pdf_path with
  | None => true
  | Some pages => forallb (forallb isspace) (take PAGE_EXTRACT_LIMIT pages)
  end.

(** What [analyze_text_with_gemini] leaves when the response parses. *)
Definition parsed_events (text filename response_text : str) : list event :=
  [ Logged LOG_GENERAL (MsgPdf filename);
    Logged LOG_GENERAL (MsgPrompt filename text);
    GenerateContent filename text;
    Logged LOG_RAW (MsgRawResponse filename (strip response_text)) ].

(** The names of the listing that [main] goes on with after its two
    tests. *)
Definition eligible (keywords : list str) (names : list str) : list str :=
  List.filter
    (fun f => endswith (lower f) (s2l ".pdf") && negb (keyword_filter keywords f))
    names.

(** The event reads, classifies or copies one of [files] of the source
    folder, or does none of the three. *)
Definition concerns (files : list str) (e : event) : Prop :=
  match e with
  | FitzOpen pdf_path =>
      exists f, In f files /\ pdf_path = path_join SOURCE_FOLDER [f]
  | GenerateContent filename _ => In filename files
  | Copy2 src _ _ => exists f, In f files /\ src = path_join SOURCE_FOLDER [f]
  | _ => True
  end.

(** What [os.listdir] gave, nothing when it raised. *)
Definition listing : list str := default [] (listdir SOURCE_FOLDER).

End CoverageVocabulary.

(** A folder with a scanned PDF: it opens, its pages hold no text. *)
Definition scanned : env :=
  {| abspath := fun p => s2l "/home/user/" ++ p;
     listdir := fun _ => Some [s2l "scan.pdf"; s2l "notes.txt"];
     pdf_pages := fun _ => Some [s2l " "; []; s2l "page three"];
     generate_content := fun _ _ => Some (s2l "[]");
     json_loads := fun _ => Some (VList []);
     makedirs_ok := fun _ _ => true;
     copy2_ok := fun _ _ _ => true |}.

(** The model answers with a JSON object instead of a list. *)
Definition one_object : env :=
  {| abspath := fun p => s2l "/home/user/" ++ p;
     listdir := fun _ => Some [s2l "trip.pdf"];
     pdf_pages := fun _ => Some [s2l "Itinerary: Paris"];
     generate_content := fun _ _ => Some (s2l "{...}");
     json_loads := fun _ => Some Scenario.paris;
     makedirs_ok := fun _ _ => true;
     copy2_ok := fun _ _ _ => true |}.

(** The model answers with [null]. *)
Definition null_answer : env :=
  {| abspath := fun p => s2l "/home/user/" ++ p;
     listdir := fun _ => Some [s2l "trip.pdf"];
     pdf_pages := fun _ => Some [s2l "Itinerary: Paris"];
     generate_content := fun _ _ => Some (s2l "null");
     json_loads := fun _ => Some VNone;
     makedirs_ok := fun _ _ => true;
     copy2_ok := fun _ _ _ => true |}.

(** A destination root that cannot be written to. *)
Definition read_only : env :=
  {| abspath := fun p => s2l "/home/user/" ++ p;
     listdir := fun _ => Some [s2l "trip.pdf"];
     pdf_pages := fun _ => Some [s2l "Itinerary: Paris"];
     generate_content := fun _ _ => Some (s2l "[...]");
     json_loads := fun _ => Some (VList [Scenario.paris; Scenario.tokyo]);
     makedirs_ok := fun _ _ => false;
     copy2_ok := fun _ _ _ => false |}.

Definition paris_spaced : value :=
  VDict [ (s2l "cidade", VStr (s2l "  PARIS ")); (s2l "pais", VStr (s2l "france"));
          (s2l "continente", VStr (s2l "Europe")) ].

Definition numeric_city : value :=
  VDict [ (s2l "city", VInt 75001); (s2l "country", VStr (s2l "France"));
          (s2l "continent", VStr (s2l "europe")) ].

Definition no_city : value :=
  VDict [ (s2l "city", VNone); (s2l "country", VStr (s2l "France"));
          (s2l "continent", VStr (s2l "europe")) ].

(** *** ASCII case, as the words "upper", "lower" and "title" describe it *)

Definition is_ascii (c : N) : bool := c <? 0x80.
Definition ascii_letter (c : N) : bool :=
  in_range 0x41 0x5A c || in_range 0x61 0x7A c.
Definition ascii_upper (c : N) : N := if in_range 0x61 0x7A c then c - 32 else c.
Definition ascii_lower (c : N) : N := if in_range 0x41 0x5A c then c + 32 else c.

(** A word capitalised: its first character upper-cased, the others
    lowered. *)
Definition ascii_capitalize (w : str) : str :=
  match w with
  | [] => []
  | c :: rest => ascii_upper c :: map ascii_lower rest
  end.


Definition ascii_alnum_or_space (c : N) : bool :=
  ascii_letter c || in_range 0x30 0x39 c || isspace c.

(** On ASCII the Latin-1 table says what these functions say. *)
Definition ascii_table_agrees (c : N) : bool :=
  negb (is_ascii c)
  || (bool_decide (latin1_totitle c = [ascii_upper c])
      && bool_decide (latin1_tolower c = [ascii_lower c])
      && bool_decide (latin1_iscased c = ascii_letter c)
      && bool_decide (latin1_isalnum c || isspace c = ascii_alnum_or_space c)).


(** Words with one U+0020 between two of them and nothing else: no white
    space first or last, no white space but U+0020, no two in a row. *)
Fixpoint spaced_from (after_space : bool) (s : str) : bool :=
  match s with
  | [] => negb after_space
  | c :: s' =>
      if isspace c then (c =? 0x20) && negb after_space && spaced_from true s'
      else spaced_from false s'
  end.
Definition single_spaced (s : str) : bool :=
  match s with
  | [] => true
  | _ :: _ => spaced_from true s
  end.

(** *** Records *)

Definition english_key (k : str) : bool :=
  bool_decide (k = s2l "city") || bool_decide (k = s2l "country")
  || bool_decide (k = s2l "continent").

(** The Portuguese name of a field put into English. *)
Definition translate_key (k : str) : str :=
  if bool_decide (k = s2l "cidade") then s2l "city"
  else if bool_decide (k = s2l "pais") then s2l "country"
  else if bool_decide (k = s2l "continente") then s2l "continent"
  else k.
Definition translate (items : list (str * value)) : list (str * value) :=
  map (fun kv => (translate_key (fst kv), snd kv)) items.

Definition has_key (k : str) (items : list (str * value)) : bool :=
  existsb (fun kv => bool_decide (k = fst kv)) items.

Definition empty_city_numeric_country : value :=
  VDict [ (s2l "city", VStr []); (s2l "country", VInt 33);
          (s2l "continent", VStr (s2l "europe")) ].
Definition empty_country_numeric_city : value :=
  VDict [ (s2l "city", VInt 75001); (s2l "country", VStr []);
          (s2l "continent", VStr (s2l "europe")) ].

End Coverage.

Import Coverage.

(** * Properties *)

(** ** Strings *)

Section StringFacts.

Lemma dropwhile_decompose {A} (p : A -> bool) (l : list A) :
  exists pre, l = pre ++ dropwhile p l /\ forallb p pre = true.
Proof.
  induction l as [|x l [pre [Hl Hp]]]; simpl.
  - exists []. split; reflexivity.
  - destruct (p x) eqn:Hx.
    + exists (x :: pre). simpl. rewrite Hx, Hp. split; [f_equal; exact Hl | reflexivity].
    + exists []. split; reflexivity.
Qed.

Lemma forallb_rev {A} (p : A -> bool) (l : list A) :
  forallb p (rev l) = forallb p l.
Proof.
  induction l as [|x l IH]; simpl; [reflexivity|].
  rewrite forallb_app, IH. simpl. rewrite andb_true_r. apply andb_comm.
Qed.

(** [s.strip()] removes white space at both ends and nothing else. *)
Lemma strip_decompose (s : str) :
  exists lead trail,
    s = lead ++ strip s ++ trail
    /\ forallb isspace lead = true /\ forallb isspace trail = true.
Proof.
  unfold strip, rstrip, lstrip.
  destruct (dropwhile_decompose isspace s) as [lead [Hs Hlead]].
  destruct (dropwhile_decompose isspace (rev (dropwhile isspace s)))
    as [t [Hr Ht]].
  exists lead, (rev t). repeat split; [|exact Hlead|rewrite forallb_rev; exact Ht].
  rewrite <- rev_app_distr, <- Hr, rev_involutive. exact Hs.
Qed.

Lemma split_from_spaces (cur ws : str) :
  forallb isspace ws = true ->
  split_from cur ws = if nonempty cur then [rev cur] else [].
Proof.
  revert cur. induction ws as [|c ws IH]; intros cur H; simpl in *; [reflexivity|].
  apply andb_prop in H as [Hc Hws]. rewrite Hc.
  destruct (nonempty cur); rewrite (IH [] Hws); reflexivity.
Qed.

Lemma split_from_trailing (cur s ws : str) :
  forallb isspace ws = true ->
  split_from cur (s ++ ws) = split_from cur s.
Proof.
  intros Hws. revert cur. induction s as [|c s IH]; intros cur; simpl.
  - apply split_from_spaces, Hws.
  - destruct (isspace c); [destruct (nonempty cur)|]; rewrite IH; reflexivity.
Qed.

Lemma split_leading (ws s : str) :
  forallb isspace ws = true -> split (ws ++ s) = split s.
Proof.
  unfold split. induction ws as [|c ws IH]; intros H; simpl in *; [reflexivity|].
  apply andb_prop in H as [Hc Hws]. rewrite Hc. simpl. apply IH, Hws.
Qed.

(** Stripping first does not change the words. *)
Lemma split_strip (s : str) : split (strip s) = split s.
Proof.
  destruct (strip_decompose s) as [lead [trail [Hs [Hl Ht]]]].
  rewrite Hs at 2. rewrite (split_leading _ _ Hl).
  unfold split. rewrite (split_from_trailing _ _ _ Ht). reflexivity.
Qed.

Lemma word_rev (x : N) (cur : str) :
  forallb (fun c => negb (isspace c)) (x :: cur) = true ->
  word (rev (x :: cur)) = true.
Proof.
  intros H. unfold word. rewrite forallb_rev, H, andb_true_r.
  destruct (rev (x :: cur)) eqn:Hr; [|reflexivity].
  apply (f_equal (@length N)) in Hr. rewrite length_rev in Hr. discriminate.
Qed.

(** Every word [split] returns is non-empty and free of white space. *)
Lemma split_from_words (cur s : str) :
  forallb (fun c => negb (isspace c)) cur = true ->
  forallb word (split_from cur s) = true.
Proof.
  revert cur. induction s as [|c s IH]; intros cur Hcur.
  - destruct cur as [|x cur]; [reflexivity|].
    cbn [split_from nonempty forallb]. rewrite (word_rev _ _ Hcur). reflexivity.
  - cbn [split_from]. destruct (isspace c) eqn:Hc.
    + destruct cur as [|x cur]; cbn [nonempty forallb]; [apply IH; reflexivity|].
      rewrite (IH [] eq_refl), (word_rev _ _ Hcur). reflexivity.
    + apply IH. cbn [forallb]. rewrite Hc, Hcur. reflexivity.
Qed.

Lemma split_from_concat (cur s : str) :
  concat (split_from cur s)
  = rev cur ++ List.filter (fun c => negb (isspace c)) s.
Proof.
  revert cur. induction s as [|c s IH]; intros cur; simpl.
  - destruct cur; simpl; rewrite ?app_nil_r; reflexivity.
  - destruct (isspace c) eqn:Hc; simpl.
    + destruct cur as [|x cur]; simpl; rewrite IH; reflexivity.
    + rewrite IH. simpl. rewrite <- app_assoc. reflexivity.
Qed.

End StringFacts.

(** ** Normalisers *)

Section NormalizerFacts.
Context {U : ucd}.

(** The keys of [COUNTRY_NORMALIZATION] are distinct: the association
    list and the dict hold the same bindings. *)
Lemma country_aliases_nodup : NoDup (country_aliases.*1).
Proof. apply (bool_decide_unpack _). vm_compute. reflexivity. Qed.

Lemma country_alias_dom (x : str) :
  x ∈ dom COUNTRY_NORMALIZATION <-> x ∈ country_aliases.*1.
Proof.
  unfold COUNTRY_NORMALIZATION. rewrite dom_list_to_map_L.
  apply elem_of_list_to_set.
Qed.

Lemma normalize_city_split (city : str) :
  normalize_city city = join (s2l " ") (map capitalize (split city)).
Proof.
  unfold normalize_city. destruct city as [|c city]; [reflexivity|].
  cbn [nonempty negb]. rewrite split_strip. reflexivity.
Qed.

Lemma upper_app (a b : str) : upper (a ++ b) = upper a ++ upper b.
Proof. unfold upper. apply flat_map_app. Qed.

(** On Latin-1 text lowering is done character by character. *)
Lemma lower_from_latin1 (before s : str) :
  forallb is_latin1 s = true -> lower_from before s = flat_map latin1_tolower s.
Proof.
  revert before. induction s as [|c s IH]; intros before H; [reflexivity|].
  cbn [forallb] in H. apply andb_prop in H as [Hc Hs].
  cbn [lower_from flat_map]. rewrite (IH _ Hs). f_equal.
  unfold lower_ucs4, tolower. rewrite Hc.
  destruct (N.eqb_spec c 0x3A3) as [->|_]; [discriminate | reflexivity].
Qed.

(** A Latin-1 word is capitalised by putting its first character in title
    case and lowering each of the others, capitals inside the word
    included. *)
Lemma capitalize_latin1 (c : N) (rest : str) :
  forallb is_latin1 (c :: rest) = true ->
  capitalize (c :: rest) = latin1_totitle c ++ flat_map latin1_tolower rest.
Proof.
  cbn [forallb]. intros H. apply andb_prop in H as [Hc Hrest].
  unfold capitalize, totitle. rewrite Hc, (lower_from_latin1 _ _ Hrest).
  reflexivity.
Qed.

End NormalizerFacts.

(** C2, as the claim states it, fails: [capitalize] lowers what follows the
    first character, so the capital inside a word is lost. *)
Lemma normalize_city_loses_inner_capital :
  @normalize_city latin1_only (s2l "mcAllen") = s2l "Mcallen"
  /\ @spec_normalize_city latin1_only (s2l "mcAllen") = s2l "McAllen"
  /\ @normalize_city latin1_only (s2l "mcAllen")
     <> @spec_normalize_city latin1_only (s2l "mcAllen").
Proof.
  split; [vm_compute; reflexivity|]. split; [vm_compute; reflexivity|].
  vm_compute. discriminate.
Qed.

(** The example of the specification, with U+00E3 for the a with tilde. *)
Example normalize_city_sao_paulo {U : ucd} :
  normalize_city (s2l "  s" ++ [0xE3] ++ s2l "o   paulo ")
  = s2l "S" ++ [0xE3] ++ s2l "o Paulo".
Proof. vm_compute. reflexivity. Qed.

(** C3, as the claim states it, fails: line 242 calls [upper] on the raw
    value and never [strip]. *)
Lemma normalize_continent_keeps_spaces :
  @normalize_continent latin1_only (s2l " europe ") = s2l " EUROPE "
  /\ @spec_normalize_continent latin1_only (s2l " europe ") = s2l "EUROPE"
  /\ @normalize_continent latin1_only (s2l " europe ")
     <> @spec_normalize_continent latin1_only (s2l " europe ").
Proof.
  split; [vm_compute; reflexivity|]. split; [vm_compute; reflexivity|].
  vm_compute. discriminate.
Qed.

(** C3 (amended): the normalised continent is the raw value upper-cased
    character by character, white space at its ends included: it is the
    upper-cased trimmed value between the upper-cased leading and trailing
    white space of the input. *)
Theorem normalize_continent_uppercases_untrimmed {U : ucd} (continent_raw : str) :
  normalize_continent continent_raw = flat_map toupper continent_raw
  /\ call_upper (VStr continent_raw) = Ok (normalize_continent continent_raw)
  /\ exists lead trail,
       continent_raw = lead ++ strip continent_raw ++ trail
       /\ forallb isspace lead = true /\ forallb isspace trail = true
       /\ normalize_continent continent_raw
          = upper lead ++ spec_normalize_continent continent_raw ++ upper trail.
Proof.
  split; [reflexivity|]. split; [reflexivity|].
  destruct (strip_decompose continent_raw) as [lead [trail [Hs [Hl Ht]]]].
  exists lead, trail. repeat split; try assumption.
  unfold normalize_continent, spec_normalize_continent.
  rewrite Hs at 1. rewrite !upper_app. reflexivity.
Qed.

(** C7: on the keys of the alias table, normalising twice is normalising
    once. *)
Theorem normalize_country_idempotent_on_aliases {U : ucd} (x : str) :
  x ∈ dom COUNTRY_NORMALIZATION ->
  normalize_country (normalize_country x) = normalize_country x.
Proof.
  rewrite country_alias_dom. revert x. apply Forall_forall.
  unfold country_aliases. cbn [fmap list_fmap fst].
  repeat (apply Forall_cons; split; [vm_compute; reflexivity|]).
  apply Forall_nil. exact I.
Qed.

Lemma normalize_country_idempotent_on_aliases_witness :
  s2l "hong kong" ∈ dom COUNTRY_NORMALIZATION
  /\ @normalize_country latin1_only (@normalize_country latin1_only (s2l "hong kong"))
     = @normalize_country latin1_only (s2l "hong kong").
Proof.
  assert (H : s2l "hong kong" ∈ dom COUNTRY_NORMALIZATION).
  { apply country_alias_dom. apply (bool_decide_unpack _). vm_compute. reflexivity. }
  split; [exact H | exact (@normalize_country_idempotent_on_aliases latin1_only _ H)].
Defined.

(** ** Paths *)

Section PathFacts.

Lemma sep_free_rev (s : str) : sep_free (rev s) = sep_free s.
Proof. apply forallb_rev. Qed.

Lemma sep_char : sep = [0x2F].
Proof. reflexivity. Qed.

Lemma sep_free_cons (c : N) (s : str) :
  sep_free (c :: s) = true -> (0x2F =? c) = false /\ sep_free s = true.
Proof.
  unfold sep_free. cbn [forallb]. intros H. apply andb_prop in H as [Hc Hs].
  split; [|exact Hs]. rewrite N.eqb_sym. apply negb_true_iff, Hc.
Qed.

Lemma startswith_sep_free (b : str) : sep_free b = true -> startswith b sep = false.
Proof.
  unfold startswith. rewrite sep_char.
  destruct b as [|c b]; [reflexivity|]. intros H.
  apply sep_free_cons in H as [Hc _]. cbn [is_prefix]. rewrite Hc. reflexivity.
Qed.

Lemma endswith_sep_free (p b : str) :
  nonempty b = true -> sep_free b = true -> endswith (p ++ b) sep = false.
Proof.
  intros Hne Hb. unfold endswith. rewrite rev_app_distr, sep_char.
  rewrite <- sep_free_rev in Hb.
  destruct (rev b) as [|c t] eqn:Hr.
  - apply (f_equal (@rev N)) in Hr. rewrite rev_involutive in Hr.
    subst b. discriminate.
  - apply sep_free_cons in Hb as [Hc _].
    cbn [rev app is_prefix]. rewrite Hc. reflexivity.
Qed.

Lemma join_step_segment (p b x : str) :
  nonempty b = true -> sep_free b = true -> sep_free x = true ->
  join_step (p ++ b) x = (p ++ b) ++ sep ++ x.
Proof.
  intros Hne Hb Hx. unfold join_step.
  rewrite (startswith_sep_free _ Hx), (endswith_sep_free _ _ Hne Hb).
  destruct (p ++ b) eqn:Hpb; [|reflexivity].
  apply app_eq_nil in Hpb as [_ ->]. discriminate.
Qed.

Lemma segments_from_segment (cur b s : str) :
  sep_free b = true ->
  segments_from cur (b ++ 0x2F :: s) = rev (rev b ++ cur) :: segments s.
Proof.
  revert cur. induction b as [|c b IH]; intros cur Hb.
  - cbn [app rev segments_from]. rewrite N.eqb_refl. reflexivity.
  - apply sep_free_cons in Hb as [Hc Hb]. rewrite N.eqb_sym in Hc.
    cbn [app segments_from]. rewrite Hc.
    rewrite (IH (c :: cur) Hb). cbn [rev]. rewrite <- app_assoc. reflexivity.
Qed.

Lemma segments_segment (b s : str) :
  sep_free b = true -> segments (b ++ sep ++ s) = b :: segments s.
Proof.
  intros Hb. unfold segments at 1. rewrite sep_char. cbn [app].
  rewrite (segments_from_segment [] b s Hb), app_nil_r, rev_involutive.
  reflexivity.
Qed.

Lemma segments_from_last (cur b : str) :
  sep_free b = true -> segments_from cur b = [rev (rev b ++ cur)].
Proof.
  revert cur. induction b as [|c b IH]; intros cur Hb; [reflexivity|].
  apply sep_free_cons in Hb as [Hc Hb]. rewrite N.eqb_sym in Hc.
  cbn [segments_from]. rewrite Hc.
  rewrite (IH (c :: cur) Hb). cbn [rev]. rewrite <- app_assoc. reflexivity.
Qed.

Lemma segments_last (b : str) : sep_free b = true -> segments b = [b].
Proof.
  intros Hb. unfold segments.
  rewrite (segments_from_last [] b Hb), app_nil_r, rev_involutive. reflexivity.
Qed.

End PathFacts.

(** C8, as the claim states it, fails: [os.path.join] drops what precedes a
    component that starts with the separator, so for a city that does the
    path is not the concatenation of root, continent, country and city. *)
Lemma destination_dir_drops_root :
  @normalize_city latin1_only (s2l "/tmp") = s2l "/tmp"
  /\ complete (s2l "/tmp") (s2l "France") (s2l "EUROPE") = true
  /\ destination_dir (s2l "EUROPE") (s2l "France") (s2l "/tmp") = s2l "/tmp"
  /\ destination_dir (s2l "EUROPE") (s2l "France") (s2l "/tmp")
     <> spec_destination_dir (s2l "EUROPE") (s2l "France") (s2l "/tmp").
Proof.
  split; [vm_compute; reflexivity|]. split; [reflexivity|].
  split; [vm_compute; reflexivity|]. vm_compute. discriminate.
Qed.

(** C8 (amended): for a complete normalised destination whose continent,
    country and city hold no path separator, and a file name that holds
    none, the directory is root, continent, country and city joined by the
    separator, the file is copied to that directory plus its own name, and
    the segments of that path are exactly these five. The path is a function
    of these values alone. *)
Theorem destination_path_layout (continent country city filename : str) :
  complete city country continent = true ->
  sep_free continent = true -> sep_free country = true ->
  sep_free city = true -> sep_free filename = true ->
  destination_dir continent country city = spec_destination_dir continent country city
  /\ destination_file continent country city filename
     = spec_destination_dir continent country city ++ sep ++ filename
  /\ segments (destination_file continent country city filename)
     = [DESTINATION_FOLDER; continent; country; city; filename].
Proof.
  intros Hc Hcont Hcoun Hcity Hfile.
  unfold complete in Hc.
  apply andb_prop in Hc as [Hc Hcont_ne]. apply andb_prop in Hc as [Hcity_ne Hcoun_ne].
  assert (Hdir : destination_dir continent country city
                 = spec_destination_dir continent country city).
  { unfold destination_dir, spec_destination_dir, path_join. cbn [fold_left].
    pose proof (join_step_segment [] DESTINATION_FOLDER continent
                  eq_refl eq_refl Hcont) as Hroot.
    rewrite !app_nil_l in Hroot. rewrite Hroot.
    rewrite (app_assoc DESTINATION_FOLDER sep continent).
    rewrite (join_step_segment _ continent country Hcont_ne Hcont Hcoun).
    rewrite (app_assoc _ sep country).
    rewrite (join_step_segment _ country city Hcoun_ne Hcoun Hcity).
    rewrite <- !app_assoc. reflexivity. }
  assert (Hfile' : destination_file continent country city filename
                   = spec_destination_dir continent country city ++ sep ++ filename).
  { unfold destination_file, path_join. cbn [fold_left]. rewrite Hdir.
    unfold spec_destination_dir.
    rewrite !app_assoc.
    rewrite (join_step_segment _ city filename Hcity_ne Hcity Hfile).
    rewrite <- !app_assoc. reflexivity. }
  split; [exact Hdir|]. split; [exact Hfile'|].
  rewrite Hfile'. unfold spec_destination_dir. rewrite <- !app_assoc.
  rewrite (segments_segment DESTINATION_FOLDER _ eq_refl).
  rewrite (segments_segment continent _ Hcont).
  rewrite (segments_segment country _ Hcoun).
  rewrite (segments_segment city _ Hcity).
  rewrite (segments_last filename Hfile). reflexivity.
Qed.

Lemma destination_path_layout_witness :
  destination_dir (s2l "EUROPE") (s2l "France") (s2l "Paris")
  = spec_destination_dir (s2l "EUROPE") (s2l "France") (s2l "Paris")
  /\ destination_file (s2l "EUROPE") (s2l "France") (s2l "Paris") (s2l "trip.pdf")
     = spec_destination_dir (s2l "EUROPE") (s2l "France") (s2l "Paris")
       ++ sep ++ s2l "trip.pdf"
  /\ segments (destination_file (s2l "EUROPE") (s2l "France") (s2l "Paris")
                 (s2l "trip.pdf"))
     = [DESTINATION_FOLDER; s2l "EUROPE"; s2l "France"; s2l "Paris"; s2l "trip.pdf"].
Proof.
  exact (destination_path_layout (s2l "EUROPE") (s2l "France") (s2l "Paris")
           (s2l "trip.pdf") eq_refl eq_refl eq_refl eq_refl eq_refl).
Defined.

(** ** The run *)

Section MonadFacts.

Lemma extend_nil (w : world) : extend w [] = w.
Proof. destruct w. unfold extend. cbn [copied trace]. rewrite app_nil_r. reflexivity. Qed.

Lemma extend_extend (w : world) (a b : list event) :
  extend (extend w a) b = extend w (a ++ b).
Proof. unfold extend. cbn [copied trace]. rewrite app_assoc. reflexivity. Qed.

Lemma for_each_cons {A} (x : A) (xs : list A) (body : A -> M unit) (w w' : world) :
  body x w = (Ok tt, w') ->
  for_each (x :: xs) body w = for_each xs body w'.
Proof. intros H. cbn [for_each]. unfold bind. rewrite H. reflexivity. Qed.

Lemma for_each_raise {A} (x : A) (xs : list A) (body : A -> M unit)
      (w w' : world) (e : exn) :
  body x w = (Raise e, w') ->
  for_each (x :: xs) body w = (Raise e, w').
Proof. intros H. cbn [for_each]. unfold bind. rewrite H. reflexivity. Qed.

Lemma log_header_run (title : str) (w : world) :
  log_header title w = (Ok tt, extend w (header title)).
Proof.
  unfold log_header, log, emit, bind, header. rewrite !extend_extend. reflexivity.
Qed.

End MonadFacts.

Section KeywordFilter.
Context {U : ucd} {E : env}.

Lemma str_in_empty (s : str) : str_in [] s = true.
Proof. destruct s; reflexivity. Qed.

Lemma keyword_filter_always (filename : str) :
  keyword_filter IGNORE_KEYWORDS filename = true.
Proof.
  unfold keyword_filter, IGNORE_KEYWORDS. cbn [existsb].
  rewrite str_in_empty. reflexivity.
Qed.

Lemma process_file_ignored (filename : str) (w : world) :
  process_file IGNORE_KEYWORDS filename w
  = (Ok tt, extend w (ignored_events filename)).
Proof.
  unfold process_file, ignored_events.
  destruct (endswith (lower filename) (s2l ".pdf")); cbn [negb].
  - rewrite keyword_filter_always.
    unfold print, log, emit, bind. rewrite !extend_extend. reflexivity.
  - unfold ret. rewrite extend_nil. reflexivity.
Qed.

Lemma listing_ignored (names : list str) (w : world) :
  for_each names (process_file IGNORE_KEYWORDS) w
  = (Ok tt, extend w (flat_map ignored_events names)).
Proof.
  revert w. induction names as [|x names IH]; intros w.
  - cbn [for_each flat_map]. unfold ret. rewrite extend_nil. reflexivity.
  - rewrite (for_each_cons _ _ _ _ _ (process_file_ignored x w)).
    rewrite IH, extend_extend. reflexivity.
Qed.

Lemma ignored_events_harmless (names : list str) :
  forallb (fun e => negb (touches_document e)) (flat_map ignored_events names) = true.
Proof.
  induction names as [|x names IH]; [reflexivity|].
  cbn [flat_map]. rewrite forallb_app, IH, andb_true_r.
  unfold ignored_events. destruct (endswith _ _); reflexivity.
Qed.

(** The run of [main_with], up to the loop over the listing. *)
Lemma main_with_run (keywords : list str) :
  main_with keywords start =
    let ok := makedirs_ok (header (s2l "START")) DESTINATION_FOLDER in
    let opened := header (s2l "START") ++ [Makedirs DESTINATION_FOLDER ok] in
    if ok then
      let listed := opened ++ [Printed MsgStarting; Listdir SOURCE_FOLDER] in
      match listdir SOURCE_FOLDER with
      | Some names =>
          (for_each names (process_file keywords) >>
           log_header (s2l "END") >> print MsgDone) (World ∅ listed)
      | None => (Raise OSError, World ∅ listed)
      end
    else (Raise OSError, World ∅ opened).
Proof.
  unfold main_with. unfold bind at 1. rewrite log_header_run.
  unfold bind at 1. unfold makedirs at 1. cbn [trace extend start app].
  destruct (makedirs_ok (header (s2l "START")) DESTINATION_FOLDER); cbn zeta;
    [|reflexivity].
  unfold bind at 1. unfold print at 1, emit at 1.
  unfold bind at 1. unfold new_copied at 1.
  unfold bind at 1. unfold os_listdir at 1.
  unfold bind at 1. unfold emit at 1.
  cbn [extend trace copied].
  destruct (listdir SOURCE_FOLDER) as [names|]; unfold ret, raise;
    rewrite <- !app_assoc; reflexivity.
Qed.

End KeywordFilter.

(** C1: the empty string is in every file name, so the keyword filter holds
    for every name; the loop of [main] then does, for each name that ends in
    ".pdf", nothing but print and log that it is ignored; the whole run of
    [main] opens no document, asks for no classification and copies
    nothing, and the set [copied] stays empty. *)
Theorem main_ignores_every_pdf {U : ucd} {E : env} :
  (forall filename, keyword_filter IGNORE_KEYWORDS filename = true)
  /\ (forall names w,
        for_each names (process_file IGNORE_KEYWORDS) w
        = (Ok tt, extend w (flat_map ignored_events names)))
  /\ main start =
       (let ok := makedirs_ok (header (s2l "START")) DESTINATION_FOLDER in
        let opened := header (s2l "START") ++ [Makedirs DESTINATION_FOLDER ok] in
        if ok then
          let listed := opened ++ [Printed MsgStarting; Listdir SOURCE_FOLDER] in
          match listdir SOURCE_FOLDER with
          | Some names =>
              (Ok tt, World ∅ (listed ++ flat_map ignored_events names
                               ++ header (s2l "END") ++ [Printed MsgDone]))
          | None => (Raise OSError, World ∅ listed)
          end
        else (Raise OSError, World ∅ opened))
  /\ forallb (fun e => negb (touches_document e)) (trace (snd (main start))) = true
  /\ copied (snd (main start)) = ∅.
Proof.
  assert (Hmain : main start =
       (let ok := makedirs_ok (header (s2l "START")) DESTINATION_FOLDER in
        let opened := header (s2l "START") ++ [Makedirs DESTINATION_FOLDER ok] in
        if ok then
          let listed := opened ++ [Printed MsgStarting; Listdir SOURCE_FOLDER] in
          match listdir SOURCE_FOLDER with
          | Some names =>
              (Ok tt, World ∅ (listed ++ flat_map ignored_events names
                               ++ header (s2l "END") ++ [Printed MsgDone]))
          | None => (Raise OSError, World ∅ listed)
          end
        else (Raise OSError, World ∅ opened))).
  { unfold main. rewrite main_with_run. cbn zeta.
    destruct (makedirs_ok _ _); [|reflexivity].
    destruct (listdir SOURCE_FOLDER) as [names|]; [|reflexivity].
    unfold bind at 1. rewrite listing_ignored.
    unfold bind at 1. rewrite log_header_run.
    unfold print, emit. rewrite !extend_extend. unfold extend.
    cbn [copied trace]. reflexivity. }
  split; [apply keyword_filter_always|].
  split; [apply listing_ignored|].
  split; [exact Hmain|].
  rewrite Hmain. cbn zeta.
  destruct (makedirs_ok _ _); [|split; reflexivity].
  destruct (listdir SOURCE_FOLDER) as [names|]; [|split; reflexivity].
  split; [|reflexivity]. cbn [snd trace].
  rewrite !forallb_app, ignored_events_harmless. reflexivity.
Qed.

Section Records.
Context {U : ucd} {E : env}.

Lemma complete_false_iff (city country continent : str) :
  complete city country continent = false
  <-> city = [] \/ country = [] \/ continent = [].
Proof.
  unfold complete. destruct city, country, continent; cbn; split; intros H;
    try reflexivity; try discriminate; try tauto.
  destruct H as [H|[H|H]]; discriminate.
Qed.

(** After lines 234-242 succeeded, the record is printed and the rest of
    the loop body runs on the normalised values. *)
Lemma process_destination_resolved (filename src : str) (d : value) (w : world)
      (m : message) (city country continent : str) :
  resolve d = Ok (m, (city, country, continent)) ->
  process_destination filename src d w =
    (if negb (complete city country continent) then
       log LOG_JSON (MsgIncomplete filename d)
     else
       let final_dir := destination_dir continent country city in
       makedirs final_dir >>
       let dst := path_join final_dir [filename] in
       let key := (abspath src, abspath dst) in
       let* seen := key_in_copied key in
       if seen then print MsgAlreadyCopied
       else
         let* ok := copy2 src dst in
         if ok then add_copied key >> print (MsgCopied final_dir)
         else print MsgCopyError) (extend w [Printed m]).
Proof.
  unfold resolve, process_destination. intros H.
  destruct (get_field d (s2l "city") (s2l "cidade")) as [city_raw|];
    cbn [rbind] in H; [|discriminate].
  destruct (get_field d (s2l "country") (s2l "pais")) as [country_raw|];
    cbn [rbind] in H; [|discriminate].
  destruct (get_field d (s2l "continent") (s2l "continente")) as [continent_raw|];
    cbn [rbind] in H; [|discriminate].
  cbv beta iota delta [bind lift print emit].
  destruct (call_normalize_city city_raw) as [city'|];
    cbn [rbind] in H; [|discriminate].
  destruct (call_normalize_country country_raw) as [country'|];
    cbn [rbind] in H; [|discriminate].
  destruct (call_upper continent_raw) as [continent'|];
    cbn [rbind] in H; [|discriminate].
  injection H as <- <- <- <-.
  reflexivity.
Qed.

(** The rest of the loop body for a complete record. *)
Lemma placement_run (filename src : str) (d : value) (w : world)
      (m : message) (city country continent : str) :
  resolve d = Ok (m, (city, country, continent)) ->
  complete city country continent = true ->
  let final_dir := destination_dir continent country city in
  let dst := destination_file continent country city filename in
  let key := key_of src dst in
  let before := trace w ++ [Printed m] in
  let made := before ++ [Makedirs final_dir true] in
  process_destination filename src d w =
    if makedirs_ok before final_dir then
      if bool_decide (key ∈ copied w) then
        (Ok tt, World (copied w) (made ++ [Printed MsgAlreadyCopied]))
      else if copy2_ok made src dst then
        (Ok tt, World ({[ key ]} ∪ copied w)
                  (made ++ [Copy2 src dst true; Printed (MsgCopied final_dir)]))
      else
        (Ok tt, World (copied w) (made ++ [Copy2 src dst false; Printed MsgCopyError]))
    else (Raise OSError, World (copied w) (before ++ [Makedirs final_dir false])).
Proof.
  intros Hres Hc. cbn zeta.
  rewrite (process_destination_resolved _ _ _ _ _ _ _ _ Hres), Hc.
  cbn [negb]. cbn zeta.
  unfold bind at 1. unfold makedirs at 1. cbn [extend trace copied].
  destruct (makedirs_ok (trace w ++ [Printed m]) (destination_dir continent country city));
    [|reflexivity].
  unfold bind at 1. unfold key_in_copied at 1. cbn [extend copied trace].
  fold (destination_file continent country city filename).
  fold (key_of src (destination_file continent country city filename)).
  destruct (bool_decide (key_of src (destination_file continent country city filename)
                         ∈ copied w)).
  - unfold print, emit, extend. cbn [copied trace].
    rewrite <- !app_assoc. reflexivity.
  - unfold bind at 1. unfold copy2 at 1. cbn [extend copied trace].
    rewrite <- !app_assoc. cbn [app].
    destruct (copy2_ok _ src _).
    + unfold bind, add_copied, print, emit, extend. cbn [copied trace].
      rewrite <- !app_assoc. reflexivity.
    + unfold print, emit, extend. cbn [copied trace].
      rewrite <- !app_assoc. reflexivity.
Qed.

End Records.

(** A record that is no dict has no [get]: the loop body raises, and with
    it [main]. *)
Remark non_dict_record_raises {U : ucd} {E : env}
       (filename src : str) (items : list value) (w : world) :
  process_destination filename src (VList items) w = (Raise AttributeError, w).
Proof. reflexivity. Qed.

(** C5 (amended): when a record's fields normalise and one of the three is empty, the
    loop body prints the raw record, logs it as incomplete and does nothing
    else: no directory, no copy, [copied] as it was, no exception; the loop
    goes on with the records that follow. *)
Theorem incomplete_record_rejected {U : ucd} {E : env}
        (filename src : str) (d : value) (rest : list value) (w : world)
        (m : message) (city country continent : str) :
  resolve d = Ok (m, (city, country, continent)) ->
  city = [] \/ country = [] \/ continent = [] ->
  process_destination filename src d w
  = (Ok tt, extend w [Printed m; Logged LOG_JSON (MsgIncomplete filename d)])
  /\ for_each (d :: rest) (process_destination filename src) w
     = for_each rest (process_destination filename src)
         (extend w [Printed m; Logged LOG_JSON (MsgIncomplete filename d)]).
Proof.
  intros Hres Hempty. apply complete_false_iff in Hempty.
  assert (H : process_destination filename src d w
              = (Ok tt, extend w [Printed m; Logged LOG_JSON (MsgIncomplete filename d)])).
  { rewrite (process_destination_resolved _ _ _ _ _ _ _ _ Hres), Hempty.
    cbn [negb]. unfold log, emit. rewrite extend_extend. reflexivity. }
  split; [exact H | apply for_each_cons, H].
Qed.

(** A record with an empty country and a city and a continent. *)
Lemma incomplete_record_rejected_witness :
  @process_destination latin1_only Scenario.offline
     (s2l "trip.pdf") Scenario.trip_src Scenario.no_country start
  = (Ok tt,
     extend start
       [ Printed (MsgRaw (VStr (s2l "Paris")) (VStr []) (VStr (s2l "europe")));
         Logged LOG_JSON (MsgIncomplete (s2l "trip.pdf") Scenario.no_country) ])
  /\ @for_each value [Scenario.no_country; Scenario.paris]
       (@process_destination latin1_only Scenario.offline (s2l "trip.pdf") Scenario.trip_src)
       start
     = @for_each value [Scenario.paris]
         (@process_destination latin1_only Scenario.offline (s2l "trip.pdf") Scenario.trip_src)
         (extend start
            [ Printed (MsgRaw (VStr (s2l "Paris")) (VStr []) (VStr (s2l "europe")));
              Logged LOG_JSON (MsgIncomplete (s2l "trip.pdf") Scenario.no_country) ]).
Proof.
  apply (@incomplete_record_rejected latin1_only Scenario.offline
           (s2l "trip.pdf") Scenario.trip_src Scenario.no_country [Scenario.paris] start
           (MsgRaw (VStr (s2l "Paris")) (VStr []) (VStr (s2l "europe")))
           (s2l "Paris") [] (s2l "EUROPE")).
  - vm_compute. reflexivity.
  - right. left. reflexivity.
Defined.

(** Two destinations of one document, the second under the localised field
    names: two directories, two copies. *)
Example paris_and_tokyo :
  @for_each value [Scenario.paris; Scenario.tokyo]
    (@process_destination latin1_only Scenario.offline (s2l "trip.pdf") Scenario.trip_src)
    start
  = (Ok tt,
     World {[ (s2l "/home/user/PDFsForOrganizer/trip.pdf",
               s2l "/home/user/OrganizerPdfs/ASIA/Japan/Tokyo/trip.pdf");
              (s2l "/home/user/PDFsForOrganizer/trip.pdf",
               s2l "/home/user/OrganizerPdfs/EUROPE/France/Paris/trip.pdf") ]}
       [ Printed Scenario.paris_raw;
         Makedirs Scenario.paris_dir true;
         Copy2 Scenario.trip_src Scenario.paris_dst true;
         Printed (MsgCopied Scenario.paris_dir);
         Printed (MsgRaw (VStr (s2l "tokyo")) (VStr (s2l "japan")) (VStr (s2l "asia")));
         Makedirs (s2l "OrganizerPdfs/ASIA/Japan/Tokyo") true;
         Copy2 Scenario.trip_src (s2l "OrganizerPdfs/ASIA/Japan/Tokyo/trip.pdf") true;
         Printed (MsgCopied (s2l "OrganizerPdfs/ASIA/Japan/Tokyo")) ]).
Proof. vm_compute. reflexivity. Qed.

(** C10: for a record that passes the completeness check, the first thing
    done after printing it is [os.makedirs] on the destination directory;
    only when that returned is [copied] asked; for a key already in it
    nothing follows but the message that the copy is skipped, and [copied]
    is as it was; otherwise [shutil.copy2] is called once, and the key
    enters [copied] when it returns. *)
Theorem directory_made_before_dedup {U : ucd} {E : env}
        (filename src : str) (d : value) (w : world)
        (m : message) (city country continent : str) :
  resolve d = Ok (m, (city, country, continent)) ->
  complete city country continent = true ->
  let final_dir := destination_dir continent country city in
  let dst := destination_file continent country city filename in
  let key := key_of src dst in
  let before := trace w ++ [Printed m] in
  let made := before ++ [Makedirs final_dir true] in
  process_destination filename src d w =
    if makedirs_ok before final_dir then
      if bool_decide (key ∈ copied w) then
        (Ok tt, World (copied w) (made ++ [Printed MsgAlreadyCopied]))
      else if copy2_ok made src dst then
        (Ok tt, World ({[ key ]} ∪ copied w)
                  (made ++ [Copy2 src dst true; Printed (MsgCopied final_dir)]))
      else
        (Ok tt, World (copied w) (made ++ [Copy2 src dst false; Printed MsgCopyError]))
    else (Raise OSError, World (copied w) (before ++ [Makedirs final_dir false])).
Proof. apply placement_run. Qed.

Lemma directory_made_before_dedup_witness :
  @process_destination latin1_only Scenario.flaky_disk
     (s2l "trip.pdf") Scenario.trip_src Scenario.paris start
  = (Ok tt,
     World ∅
       [ Printed (MsgRaw (VStr (s2l "paris")) (VStr (s2l "France")) (VStr (s2l "europe")));
         Makedirs Scenario.paris_dir true;
         Copy2 Scenario.trip_src Scenario.paris_dst false;
         Printed MsgCopyError ]).
Proof.
  rewrite (@directory_made_before_dedup latin1_only Scenario.flaky_disk
             (s2l "trip.pdf") Scenario.trip_src Scenario.paris start
             (MsgRaw (VStr (s2l "paris")) (VStr (s2l "France")) (VStr (s2l "europe")))
             (s2l "Paris") (s2l "France") (s2l "EUROPE")).
  - vm_compute. reflexivity.
  - vm_compute. reflexivity.
  - reflexivity.
Defined.

Section Classification.
Context {U : ucd} {E : env}.

Lemma extract_text_run (pdf_path : str) (w : world) :
  extract_text pdf_path PAGE_EXTRACT_LIMIT w
  = (Ok (extracted pdf_path), extend w (extraction_events pdf_path)).
Proof.
  unfold extract_text, extracted, extraction_events, bind, emit, log.
  destruct (pdf_pages pdf_path); unfold ret, emit, bind;
    rewrite ?extend_extend; reflexivity.
Qed.

Lemma analyze_failed (text filename : str) (w : world) :
  classification_failed text filename = true ->
  analyze_text_with_gemini text filename w
  = (Ok (VList []), extend w (failure_events text filename)).
Proof.
  unfold classification_failed, analyze_text_with_gemini, failure_events.
  intros H. unfold log, emit, bind, ret. cbn [extend copied trace].
  destruct (generate_content filename text) as [response|].
  - destruct (json_loads (cleaned (strip response))); [discriminate|].
    unfold extend. cbn [copied trace]. rewrite <- !app_assoc. reflexivity.
  - unfold extend. cbn [copied trace]. rewrite <- !app_assoc. reflexivity.
Qed.

Lemma process_pdf_failed (filename src : str) (w : world) :
  nonempty (strip (extracted src)) = true ->
  classification_failed (extracted src) filename = true ->
  process_pdf filename src w
  = (Ok tt, extend w (extraction_events src ++ failure_events (extracted src) filename
                      ++ [Printed MsgNoDestinations])).
Proof.
  intros Htext Hfail. unfold process_pdf.
  unfold bind at 1. rewrite extract_text_run, Htext. cbn [negb].
  unfold bind at 1. rewrite (analyze_failed _ _ _ Hfail). cbn [truthy nonempty negb].
  unfold print, emit. rewrite !extend_extend. reflexivity.
Qed.

Lemma failure_events_no_placement (text filename : str) :
  forallb (fun e => negb (is_placement e)) (failure_events text filename) = true.
Proof. unfold failure_events. destruct (generate_content _ _); reflexivity. Qed.

Lemma extraction_events_no_placement (src : str) :
  forallb (fun e => negb (is_placement e)) (extraction_events src) = true.
Proof. unfold extraction_events. destruct (pdf_pages _); reflexivity. Qed.

End Classification.

(** C9 (amended): when the call to the model raises, or [json.loads] raises on the
    cleaned response, [analyze_text_with_gemini] returns the empty list and
    only writes to the logs; for a PDF that reached the classification,
    [main] then prints that no destination was detected, makes no directory
    and copies nothing, raises nothing, and goes on with the next name of
    the listing. *)
Theorem classification_failure_is_no_destination {U : ucd} {E : env}
        (text filename : str) :
  classification_failed text filename = true ->
  (forall w,
     analyze_text_with_gemini text filename w
     = (Ok (VList []), extend w (failure_events text filename)))
  /\ (forall keywords rest w,
        endswith (lower filename) (s2l ".pdf") = true ->
        keyword_filter keywords filename = false ->
        extracted (path_join SOURCE_FOLDER [filename]) = text ->
        nonempty (strip text) = true ->
        let evs := [Printed (MsgProcessing filename)]
                   ++ extraction_events (path_join SOURCE_FOLDER [filename])
                   ++ failure_events text filename ++ [Printed MsgNoDestinations] in
        process_file keywords filename w = (Ok tt, extend w evs)
        /\ forallb (fun e => negb (is_placement e)) evs = true
        /\ for_each (filename :: rest) (process_file keywords) w
           = for_each rest (process_file keywords) (extend w evs)).
Proof.
  intros Hfail. split; [intros w; apply analyze_failed, Hfail|].
  intros keywords rest w Hpdf Hkw Htext Hne evs.
  assert (H : process_file keywords filename w = (Ok tt, extend w evs)).
  { unfold process_file. rewrite Hpdf, Hkw. cbn [negb].
    unfold bind, print at 1, emit at 1. subst text.
    rewrite (process_pdf_failed _ _ _ Hne Hfail), extend_extend. reflexivity. }
  split; [exact H|]. split; [|apply for_each_cons, H].
  unfold evs. rewrite !forallb_app, extraction_events_no_placement,
    failure_events_no_placement. reflexivity.
Qed.

Lemma classification_failure_is_no_destination_witness :
  @for_each str [s2l "trip.pdf"; s2l "visa.pdf"]
    (@process_file latin1_only Scenario.offline []) start
  = @for_each str [s2l "visa.pdf"]
      (@process_file latin1_only Scenario.offline [])
      (extend start
         [ Printed (MsgProcessing (s2l "trip.pdf"));
           FitzOpen Scenario.trip_src;
           Logged LOG_GENERAL (MsgPdf (s2l "trip.pdf"));
           Logged LOG_GENERAL (MsgPrompt (s2l "trip.pdf")
                              (s2l "Itinerary: Paris" ++ [0x0A]));
           GenerateContent (s2l "trip.pdf") (s2l "Itinerary: Paris" ++ [0x0A]);
           Logged LOG_GENERAL (MsgApiError (s2l "trip.pdf"));
           Printed MsgNoDestinations ]).
Proof.
  destruct (@classification_failure_is_no_destination latin1_only Scenario.offline
              (s2l "Itinerary: Paris" ++ [0x0A]) (s2l "trip.pdf") eq_refl)
    as [_ H].
  destruct (H [] [s2l "visa.pdf"] start eq_refl eq_refl eq_refl eq_refl)
    as [_ [_ Hnext]].
  exact Hnext.
Defined.

(** ** The set [copied] *)

Section Preservation.
Context (I : world -> Prop).

Lemma preserves_ret {A} (a : A) : preserves I (ret a).
Proof. intros w Hw. exact Hw. Qed.

Lemma preserves_raise {A} (e : exn) : preserves I (@raise A e).
Proof. intros w Hw. exact Hw. Qed.

Lemma preserves_lift {A} (r : result A) : preserves I (lift r).
Proof. intros w Hw. exact Hw. Qed.

Lemma preserves_bind {A B} (m : M A) (k : A -> M B) :
  preserves I m -> (forall a, preserves I (k a)) -> preserves I (bind m k).
Proof.
  intros Hm Hk w Hw. unfold bind. specialize (Hm w Hw).
  destruct (m w) as [[a|e] w']; cbn [snd] in *; [apply Hk, Hm | exact Hm].
Qed.

Lemma preserves_for_each {A} (xs : list A) (body : A -> M unit) :
  (forall x, preserves I (body x)) -> preserves I (for_each xs body).
Proof.
  intros Hbody. induction xs as [|x xs IH]; cbn [for_each].
  - apply preserves_ret.
  - apply preserves_bind; [apply Hbody | intros _; exact IH].
Qed.

Lemma preserves_emit (e : event) :
  (forall w, I w -> I (extend w [e])) -> preserves I (emit e).
Proof. intros H w Hw. apply H, Hw. Qed.

End Preservation.

Section Deduplication.
Context {U : ucd} {E : env}.















End Deduplication.




(** * Further properties *)

(** ** White space around a name *)

Section Padding.
Context {U : ucd}.

Lemma dropwhile_all {A} (p : A -> bool) (l x : list A) :
  forallb p l = true -> dropwhile p (l ++ x) = dropwhile p x.
Proof.
  induction l as [|a l IH]; cbn [forallb app dropwhile]; [reflexivity|].
  intros H. apply andb_prop in H as [Ha Hl]. rewrite Ha. apply IH, Hl.
Qed.

Lemma dropwhile_stops {A} (p : A -> bool) (s t : list A) :
  forallb p s = false -> dropwhile p (s ++ t) = dropwhile p s ++ t.
Proof.
  induction s as [|a s IH]; cbn [forallb app dropwhile]; [discriminate|].
  destruct (p a); cbn [andb]; [exact IH | reflexivity].
Qed.

Lemma rstrip_trailing (x trail : str) :
  forallb isspace trail = true -> rstrip (x ++ trail) = rstrip x.
Proof.
  intros H. unfold rstrip. rewrite rev_app_distr, dropwhile_all; [reflexivity|].
  rewrite forallb_rev. exact H.
Qed.

Lemma strip_spaces (ws : str) : forallb isspace ws = true -> strip ws = [].
Proof.
  intros H. unfold strip, lstrip.
  rewrite <- (app_nil_r ws), (dropwhile_all _ _ _ H). reflexivity.
Qed.

(** [strip] does not see white space added at either end. *)
Lemma strip_pad (lead s trail : str) :
  forallb isspace lead = true -> forallb isspace trail = true ->
  strip (lead ++ s ++ trail) = strip s.
Proof.
  intros Hl Ht. unfold strip, lstrip. rewrite (dropwhile_all _ _ _ Hl).
  destruct (forallb isspace s) eqn:Hs.
  - rewrite (dropwhile_all _ _ _ Hs).
    fold (lstrip trail). fold (strip trail). fold (lstrip s). fold (strip s).
    rewrite (strip_spaces _ Ht), (strip_spaces _ Hs). reflexivity.
  - rewrite (dropwhile_stops _ _ _ Hs). apply rstrip_trailing, Ht.
Qed.

Lemma split_pad (lead s trail : str) :
  forallb isspace lead = true -> forallb isspace trail = true ->
  split (lead ++ s ++ trail) = split s.
Proof.
  intros Hl Ht. rewrite (split_leading _ _ Hl). unfold split.
  apply split_from_trailing, Ht.
Qed.

Lemma normalize_country_strip (country : str) :
  normalize_country country
  = dict_get COUNTRY_NORMALIZATION (lower (strip country))
      (dict_get COUNTRY_NORMALIZATION
         (strip (List.filter (fun ch => isalnum ch || isspace ch)
                   (lower (strip country))))
         (title (strip country))).
Proof. destruct country; [vm_compute|]; reflexivity. Qed.

End Padding.

(** X1: white space before and after a country or a city does not change
    what it normalises to; a name made of white space alone normalises like
    the empty one. *)
Theorem normalizers_ignore_padding {U : ucd} (lead s trail : str) :
  forallb isspace lead = true -> forallb isspace trail = true ->
  normalize_country (lead ++ s ++ trail) = normalize_country s
  /\ normalize_city (lead ++ s ++ trail) = normalize_city s
  /\ normalize_country (lead ++ trail) = []
  /\ normalize_city (lead ++ trail) = [].
Proof.
  intros Hl Ht.
  assert (Hc : forall x, normalize_country (lead ++ x ++ trail) = normalize_country x).
  { intros x. rewrite !normalize_country_strip, (strip_pad _ _ _ Hl Ht). reflexivity. }
  assert (Hy : forall x, normalize_city (lead ++ x ++ trail) = normalize_city x).
  { intros x. rewrite !normalize_city_split, (split_pad _ _ _ Hl Ht). reflexivity. }
  split; [apply Hc|]. split; [apply Hy|].
  split; [apply (Hc []) | apply (Hy [])].
Qed.

Lemma normalizers_ignore_padding_witness :
  @normalize_country latin1_only (s2l "  " ++ s2l "u.k." ++ [0x0A])
  = @normalize_country latin1_only (s2l "u.k.")
  /\ @normalize_city latin1_only (s2l "  " ++ s2l "u.k." ++ [0x0A])
     = @normalize_city latin1_only (s2l "u.k.")
  /\ @normalize_country latin1_only (s2l "  " ++ [0x0A]) = []
  /\ @normalize_city latin1_only (s2l "  " ++ [0x0A]) = [].
Proof.
  exact (@normalizers_ignore_padding latin1_only (s2l "  ") (s2l "u.k.") [0x0A]
           eq_refl eq_refl).
Defined.

(** ** The alias table *)

Section Aliases.
Context {U : ucd}.

Lemma country_alias_lookup (k v : str) :
  COUNTRY_NORMALIZATION !! k = Some v <-> (k, v) ∈ country_aliases.
Proof.
  unfold COUNTRY_NORMALIZATION. symmetry.
  apply elem_of_list_to_map, country_aliases_nodup.
Qed.

Lemma country_aliases_checked : Forall alias_checks country_aliases.
Proof.
  unfold country_aliases, alias_checks.
  repeat (apply Forall_cons; split;
          [cbn [fst snd]; repeat split; vm_compute; reflexivity|]).
  apply Forall_nil. exact I.
Qed.

End Aliases.

(** X2: an alias of the table resolves to its canonical name as it is
    written, in capitals, and with white space around it; and a canonical
    name resolves to itself. *)
Theorem alias_resolves {U : ucd} (k v lead trail : str) :
  COUNTRY_NORMALIZATION !! k = Some v ->
  forallb isspace lead = true -> forallb isspace trail = true ->
  normalize_country (lead ++ k ++ trail) = v
  /\ normalize_country (lead ++ upper k ++ trail) = v
  /\ normalize_country v = v.
Proof.
  intros Hk Hl Ht. apply country_alias_lookup in Hk.
  pose proof country_aliases_checked as Hall.
  rewrite Forall_forall in Hall. destruct (Hall _ Hk) as [H1 [H2 H3]].
  cbn [fst snd] in *.
  assert (Hpad : forall x, normalize_country (lead ++ x ++ trail) = normalize_country x).
  { intros x. rewrite !normalize_country_strip, (strip_pad _ _ _ Hl Ht). reflexivity. }
  rewrite !Hpad. auto.
Qed.

Lemma alias_resolves_witness :
  @normalize_country latin1_only (s2l " " ++ s2l "great britain" ++ s2l "  ")
  = s2l "United Kingdom"
  /\ @normalize_country latin1_only
       (s2l " " ++ @upper latin1_only (s2l "great britain") ++ s2l "  ")
     = s2l "United Kingdom"
  /\ @normalize_country latin1_only (s2l "United Kingdom") = s2l "United Kingdom".
Proof.
  apply (@alias_resolves latin1_only (s2l "great britain") (s2l "United Kingdom")
           (s2l " ") (s2l "  ")).
  - vm_compute. reflexivity.
  - reflexivity.
  - reflexivity.
Defined.

(** ** The shape of a normalised city *)

Section CityShape.
Context {U : ucd}.

Lemma latin1_forall (P : N -> bool) (c : N) :
  forallb P latin1_range = true -> is_latin1 c = true -> P c = true.
Proof.
  intros Hall Hc. rewrite forallb_forall in Hall. apply Hall.
  unfold latin1_range. apply in_map_iff. exists (N.to_nat c).
  split; [apply N2Nat.id|]. apply in_seq.
  unfold is_latin1 in Hc. apply N.ltb_lt in Hc. lia.
Qed.

Lemma latin1_case_table : forallb latin1_case_keeps_words latin1_range = true.
Proof. vm_compute. reflexivity. Qed.

Lemma split_from_word (cur w s : str) :
  forallb notspace w = true ->
  split_from cur (w ++ s) = split_from (rev w ++ cur) s.
Proof.
  revert cur. induction w as [|c w IH]; intros cur Hw; [reflexivity|].
  cbn [forallb] in Hw. apply andb_prop in Hw as [Hc Hw].
  unfold notspace in Hc. apply negb_true_iff in Hc.
  cbn [app split_from rev]. rewrite Hc, (IH _ Hw), <- app_assoc. reflexivity.
Qed.

Lemma word_parts (w : str) :
  word w = true -> nonempty (rev w) = true /\ forallb notspace w = true.
Proof.
  unfold word. intros H. apply andb_prop in H as [Hne Hw]. split; [|exact Hw].
  destruct w as [|c w]; [discriminate|]. cbn [rev].
  destruct (rev w); reflexivity.
Qed.

(** Joining words with single spaces and splitting again gives the words
    back. *)
Lemma split_join_words (ws : list str) :
  forallb word ws = true -> split (join (s2l " ") ws) = ws.
Proof.
  induction ws as [|w ws IH]; [reflexivity|]. cbn [forallb]. intros H.
  apply andb_prop in H as [Hw Hws]. destruct (word_parts _ Hw) as [Hne Hchars].
  unfold split in *. destruct ws as [|w2 ws].
  - cbn [join]. pose proof (split_from_word [] w [] Hchars) as Hsplit.
    rewrite !app_nil_r in Hsplit. rewrite Hsplit.
    cbn [split_from]. rewrite Hne, rev_involutive. reflexivity.
  - change (join (s2l " ") (w :: w2 :: ws))
      with (w ++ 32 :: join (s2l " ") (w2 :: ws)).
    rewrite (split_from_word _ _ _ Hchars), app_nil_r.
    cbn [split_from]. change (isspace 32) with true. cbv iota.
    rewrite Hne, rev_involutive, (IH Hws). reflexivity.
Qed.

Lemma join_words_end (w : str) (ws : list str) :
  forallb word (w :: ws) = true ->
  exists x c, join (s2l " ") (w :: ws) = x ++ [c] /\ isspace c = false.
Proof.
  revert w. induction ws as [|w2 ws IH]; intros w H; cbn [forallb] in H;
    apply andb_prop in H as [Hw Hws].
  - cbn [join]. unfold word in Hw. apply andb_prop in Hw as [Hne Hchars].
    destruct (exists_last (l := w)) as [x [c Hx]]; [intros ->; discriminate|].
    exists x, c. split; [exact Hx|]. subst w.
    rewrite forallb_app in Hchars. apply andb_prop in Hchars as [_ Hc].
    cbn [forallb] in Hc. rewrite andb_true_r in Hc. apply negb_true_iff, Hc.
  - destruct (IH w2 Hws) as [x [c [Hx Hc]]].
    exists (w ++ s2l " " ++ x), c. split; [|exact Hc].
    change (join (s2l " ") (w :: w2 :: ws))
      with (w ++ s2l " " ++ join (s2l " ") (w2 :: ws)).
    rewrite Hx, <- !app_assoc. reflexivity.
Qed.

(** Words joined with single spaces have no white space at either end. *)
Lemma strip_join_words (ws : list str) :
  forallb word ws = true -> strip (join (s2l " ") ws) = join (s2l " ") ws.
Proof.
  destruct ws as [|w ws]; [reflexivity|]. intros H.
  destruct (join_words_end _ _ H) as [x [c [Hx Hc]]].
  assert (Hhead : lstrip (join (s2l " ") (w :: ws)) = join (s2l " ") (w :: ws)).
  { cbn [forallb] in H. apply andb_prop in H as [Hw _].
    unfold word in Hw. apply andb_prop in Hw as [Hne Hchars].
    destruct w as [|a w]; [discriminate|].
    cbn [forallb] in Hchars. apply andb_prop in Hchars as [Ha _].
    apply negb_true_iff in Ha.
    unfold lstrip. destruct ws; cbn [join app dropwhile]; rewrite Ha; reflexivity. }
  unfold strip. rewrite Hhead, Hx. unfold rstrip.
  rewrite rev_app_distr. cbn [rev app dropwhile]. rewrite Hc.
  change (c :: rev x) with ([c] ++ rev x).
  rewrite <- (rev_involutive [c]) at 1. rewrite <- rev_app_distr, rev_involutive.
  reflexivity.
Qed.

Lemma split_from_all (P : N -> bool) (cur s : str) :
  forallb P cur = true -> forallb P s = true ->
  forallb (forallb P) (split_from cur s) = true.
Proof.
  revert cur. induction s as [|c s IH]; intros cur Hcur Hs.
  - cbn [split_from]. destruct (nonempty cur); [|reflexivity].
    cbn [forallb]. rewrite forallb_rev, Hcur. reflexivity.
  - cbn [forallb] in Hs. apply andb_prop in Hs as [Hc Hs]. cbn [split_from].
    destruct (isspace c).
    + destruct (nonempty cur); cbn [forallb];
        rewrite ?forallb_rev, ?Hcur, (IH [] eq_refl Hs); reflexivity.
    + apply IH; [|exact Hs]. cbn [forallb]. rewrite Hc, Hcur. reflexivity.
Qed.

Lemma forallb_flat_map {A B} (P : B -> bool) (f : A -> list B) (l : list A) :
  forallb (fun a => forallb P (f a)) l = true -> forallb P (flat_map f l) = true.
Proof.
  induction l as [|a l IH]; [reflexivity|]. cbn [forallb flat_map]. intros H.
  apply andb_prop in H as [Ha Hl]. rewrite forallb_app, Ha, (IH Hl). reflexivity.
Qed.

(** Capitalising a Latin-1 word gives a word. *)
Lemma capitalize_latin1_word (w : str) :
  word w = true -> forallb is_latin1 w = true -> word (capitalize w) = true.
Proof.
  intros Hw Hl. unfold word in Hw. apply andb_prop in Hw as [Hne Hchars].
  destruct w as [|c rest]; [discriminate|].
  rewrite (capitalize_latin1 _ _ Hl).
  cbn [forallb] in Hl, Hchars.
  apply andb_prop in Hl as [Hc Hrest]. apply andb_prop in Hchars as [Hcs Hrs].
  pose proof (latin1_forall _ _ latin1_case_table Hc) as Htab.
  unfold latin1_case_keeps_words in Htab. unfold notspace in Hcs.
  apply negb_true_iff in Hcs. rewrite Hcs in Htab. cbn [orb] in Htab.
  apply andb_prop in Htab as [Htab _]. apply andb_prop in Htab as [Hne' Htitle].
  unfold word. change (fun c0 : N => negb (isspace c0)) with notspace.
  rewrite forallb_app, Htitle. cbn [andb].
  apply andb_true_intro. split.
  - destruct (latin1_totitle c); [discriminate | reflexivity].
  - apply forallb_flat_map. apply forallb_forall. intros a Ha.
    rewrite forallb_forall in Hrest, Hrs.
    pose proof (latin1_forall _ _ latin1_case_table (Hrest _ Ha)) as Ha'.
    unfold latin1_case_keeps_words in Ha'.
    specialize (Hrs _ Ha). unfold notspace in Hrs.
    apply negb_true_iff in Hrs. rewrite Hrs in Ha'. cbn [orb] in Ha'.
    apply andb_prop in Ha' as [_ Hlow]. exact Hlow.
Qed.

Lemma capitalized_words (city : str) :
  forallb is_latin1 city = true ->
  forallb word (map capitalize (split city)) = true.
Proof.
  intros Hl.
  pose proof (split_from_words [] city eq_refl) as Hw.
  pose proof (split_from_all is_latin1 [] city eq_refl Hl) as Hall.
  fold (split city) in Hw, Hall.
  induction (split city) as [|w ws IH]; [reflexivity|].
  cbn [forallb map] in *.
  apply andb_prop in Hw as [Hw Hws]. apply andb_prop in Hall as [Ha Has].
  rewrite (capitalize_latin1_word _ Hw Ha), (IH Hws Has). reflexivity.
Qed.

End CityShape.

(** ** The keyword filter *)

Section Keywords.
Context {U : ucd}.

Lemma is_prefix_spec (p s : str) :
  is_prefix p s = true <-> exists t, s = p ++ t.
Proof.
  revert s. induction p as [|a p IH]; intros s; cbn [is_prefix].
  - split; [intros _; exists s; reflexivity | reflexivity].
  - destruct s as [|b s].
    + split; [discriminate | intros [t Ht]; discriminate].
    + split.
      * intros H. apply andb_prop in H as [Hab Hp].
        apply N.eqb_eq in Hab. subst b. apply IH in Hp as [t ->].
        exists t. reflexivity.
      * intros [t Ht]. injection Ht as -> ->. rewrite N.eqb_refl.
        apply IH. exists t. reflexivity.
Qed.

(** [k in s] holds exactly when [k] is a run of consecutive characters
    of [s]. *)
Lemma str_in_spec (k s : str) :
  str_in k s = true <-> exists pre post, s = pre ++ k ++ post.
Proof.
  induction s as [|c s IH]; cbn [str_in].
  - rewrite orb_false_r, is_prefix_spec. split.
    + intros [t Ht]. exists [], t. exact Ht.
    + intros [pre [post H]]. destruct pre; [exists post; exact H | discriminate].
  - split.
    + intros H. apply orb_prop in H as [H|H].
      * apply is_prefix_spec in H as [t Ht]. exists [], t. exact Ht.
      * apply IH in H as [pre [post ->]]. exists (c :: pre), post. reflexivity.
    + intros [pre [post H]]. apply orb_true_intro. destruct pre as [|a pre].
      * left. apply is_prefix_spec. exists post. exact H.
      * right. injection H as _ ->. apply IH. exists pre, post. reflexivity.
Qed.

Lemma str_in_all (P : N -> bool) (k s : str) :
  str_in k s = true -> forallb P s = true -> forallb P k = true.
Proof.
  intros Hin Hs. apply str_in_spec in Hin as [pre [post ->]].
  rewrite !forallb_app in Hs. apply andb_prop in Hs as [_ Hs].
  apply andb_prop in Hs as [Hk _]. exact Hk.
Qed.

Lemma latin1_lower_table : forallb latin1_lower_has_no_capital latin1_range = true.
Proof. vm_compute. reflexivity. Qed.

(** A lowered Latin-1 name holds no Latin-1 capital. *)
Lemma lower_latin1_no_capital (s : str) :
  forallb is_latin1 s = true ->
  forallb (fun l => negb (latin1_upper_letter l)) (lower s) = true.
Proof.
  intros Hl. unfold lower. rewrite (lower_from_latin1 _ _ Hl).
  apply forallb_flat_map, forallb_forall. intros c Hc.
  rewrite forallb_forall in Hl.
  exact (latin1_forall _ _ latin1_lower_table (Hl _ Hc)).
Qed.

Lemma capital_keyword_never_matches (k filename : str) :
  forallb is_latin1 filename = true ->
  existsb latin1_upper_letter k = true ->
  str_in k (lower filename) = false.
Proof.
  intros Hl Hk. destruct (str_in k (lower filename)) eqn:Hin; [|reflexivity].
  pose proof (str_in_all _ _ _ Hin (lower_latin1_no_capital _ Hl)) as Hno.
  apply existsb_exists in Hk as [c [Hc Hup]].
  rewrite forallb_forall in Hno. specialize (Hno _ Hc).
  rewrite Hup in Hno. discriminate.
Qed.

End Keywords.

(** X4: a file name passes for ignored exactly when one of the keywords, as
    it is written in the list, is a run of consecutive characters of the
    lowered file name. *)
Theorem keyword_filter_is_substring_test {U : ucd}
        (keywords : list str) (filename : str) :
  keyword_filter keywords filename = true
  <-> exists k pre post, In k keywords /\ lower filename = pre ++ k ++ post.
Proof.
  unfold keyword_filter. rewrite existsb_exists. split.
  - intros [k [Hk Hin]]. apply str_in_spec in Hin as [pre [post H]].
    exists k, pre, post. split; assumption.
  - intros [k [pre [post [Hk H]]]]. exists k. split; [exact Hk|].
    apply str_in_spec. exists pre, post. exact H.
Qed.

Lemma keyword_filter_is_substring_test_witness :
  @keyword_filter latin1_only [s2l "draft"; s2l "invoice"] (s2l "My-Invoice-03.PDF")
  = true.
Proof.
  apply (@keyword_filter_is_substring_test latin1_only
           [s2l "draft"; s2l "invoice"] (s2l "My-Invoice-03.PDF")).
  exists (s2l "invoice"), (s2l "my-"), (s2l "-03.pdf").
  split; [right; left; reflexivity | vm_compute; reflexivity].
Defined.

(** X5: the keywords are compared as they are written, the file name
    lowered: for a Latin-1 file name a keyword that holds a capital letter
    never matches, and the filter is the same with such keywords taken out
    of the list. *)
Theorem capital_keywords_are_dead {U : ucd} (keywords : list str) (filename : str) :
  forallb is_latin1 filename = true ->
  keyword_filter keywords filename
  = keyword_filter
      (List.filter (fun k => negb (existsb latin1_upper_letter k)) keywords)
      filename.
Proof.
  intros Hl. unfold keyword_filter.
  induction keywords as [|k keywords IH]; [reflexivity|].
  cbn [existsb List.filter]. rewrite IH.
  destruct (existsb latin1_upper_letter k) eqn:Hk; cbn [negb existsb].
  - rewrite (capital_keyword_never_matches _ _ Hl Hk). reflexivity.
  - reflexivity.
Qed.

Lemma capital_keywords_are_dead_witness :
  @keyword_filter latin1_only [s2l "Invoice"] (s2l "My-Invoice-03.PDF")
  = @keyword_filter latin1_only [] (s2l "My-Invoice-03.PDF").
Proof.
  exact (@capital_keywords_are_dead latin1_only [s2l "Invoice"]
           (s2l "My-Invoice-03.PDF") eq_refl).
Defined.

(** ** Code fences around a response *)

Section Fences.

Lemma is_prefix_app (p t : str) : is_prefix p (p ++ t) = true.
Proof.
  induction p as [|a p IH]; [reflexivity|].
  cbn [app is_prefix]. rewrite N.eqb_refl, IH. reflexivity.
Qed.

Lemma replace_from_skip (old new pre s : str) :
  replace_from old new (length pre) (pre ++ s) = replace_from old new O s.
Proof.
  induction pre as [|c pre IH]; [reflexivity|].
  cbn [length app replace_from]. exact IH.
Qed.

(** At an occurrence of [old] the replacement is written and the scan goes
    on behind the occurrence. *)
Lemma replace_from_match (c0 : N) (old new s : str) :
  replace_from (c0 :: old) new O ((c0 :: old) ++ s)
  = new ++ replace_from (c0 :: old) new O s.
Proof.
  change ((c0 :: old) ++ s) with (c0 :: (old ++ s)). cbn [replace_from].
  change (c0 :: old ++ s) with ((c0 :: old) ++ s).
  rewrite is_prefix_app. cbn [length pred]. rewrite replace_from_skip.
  reflexivity.
Qed.

(** Text without the first character of [old] is copied as it is. *)
Lemma replace_from_free (c0 : N) (old new body s : str) :
  forallb (fun c => negb (c0 =? c)) body = true ->
  replace_from (c0 :: old) new O (body ++ s)
  = body ++ replace_from (c0 :: old) new O s.
Proof.
  induction body as [|c body IH]; [reflexivity|]. cbn [forallb]. intros H.
  apply andb_prop in H as [Hc Hbody]. apply negb_true_iff in Hc.
  cbn [app replace_from is_prefix]. rewrite Hc. cbn [andb].
  rewrite (IH Hbody). reflexivity.
Qed.

End Fences.

(** X6: a response without backticks is only stripped before it is parsed,
    and one wrapped in the json code fence is parsed as its stripped
    inside. *)
Theorem cleaned_unwraps_json_fence (body : str) :
  backtick_free body = true ->
  cleaned body = strip body
  /\ cleaned (s2l "```json" ++ body ++ s2l "```") = strip body
  /\ cleaned (strip (s2l " ```json" ++ body ++ s2l "``` ")) = strip body.
Proof.
  intros Hb. unfold backtick_free in Hb.
  assert (Hplain : forall old, replace body (96 :: old) [] = body).
  { intros old. unfold replace.
    pose proof (replace_from_free 96 old [] body [] Hb) as H.
    rewrite !app_nil_r in H. exact H. }
  assert (Hfence : cleaned (s2l "```json" ++ body ++ s2l "```") = strip body).
  { unfold cleaned, replace.
    change (s2l "```json") with (96 :: s2l "``json").
    rewrite replace_from_match, app_nil_l.
    rewrite (replace_from_free 96 _ [] body _ Hb).
    change (replace_from (96 :: s2l "``json") [] 0 (s2l "```")) with (s2l "```").
    change (s2l "```") with (96 :: s2l "``") at 1.
    rewrite (replace_from_free 96 _ [] body _ Hb).
    change (replace_from (96 :: s2l "``") [] 0 (s2l "```")) with (@nil N).
    rewrite app_nil_r. reflexivity. }
  split; [|split; [exact Hfence|]].
  - unfold cleaned. change (s2l "```json") with (96 :: s2l "``json").
    change (s2l "```") with (96 :: s2l "``").
    rewrite !Hplain. reflexivity.
  - change (s2l " ```json" ++ body ++ s2l "``` ")
      with (s2l " " ++ (s2l "```json" ++ body ++ s2l "``` ")).
    replace (s2l "```json" ++ body ++ s2l "``` ")
      with ((s2l "```json" ++ body ++ s2l "```") ++ s2l " ")
      by (rewrite <- !app_assoc; reflexivity).
    rewrite (strip_pad (s2l " ") _ (s2l " ") eq_refl eq_refl).
    assert (Htrim : strip (s2l "```json" ++ body ++ s2l "```")
                    = s2l "```json" ++ body ++ s2l "```").
    { unfold strip, lstrip. cbn [app dropwhile s2l].
      change (s2l "```json" ++ body ++ s2l "```")
        with (96 :: (s2l "``json" ++ body ++ s2l "```")).
      cbn [dropwhile]. change (isspace 96) with false. cbv iota.
      unfold rstrip.
      replace (96 :: s2l "``json" ++ body ++ s2l "```")
        with ((s2l "```json" ++ body ++ s2l "``") ++ [96])
        by (rewrite <- !app_assoc; reflexivity).
      rewrite rev_app_distr. cbn [rev app dropwhile].
      change (isspace 96) with false. cbv iota.
      change (96 :: rev (s2l "```json" ++ body ++ s2l "``"))
        with (rev [96] ++ rev (s2l "```json" ++ body ++ s2l "``")).
      rewrite <- rev_app_distr, rev_involutive. reflexivity. }
    rewrite Htrim. exact Hfence.
Qed.

Lemma cleaned_unwraps_json_fence_witness :
  cleaned (s2l "[]") = strip (s2l "[]")
  /\ cleaned (s2l "```json" ++ s2l "[]" ++ s2l "```") = strip (s2l "[]")
  /\ cleaned (strip (s2l " ```json" ++ s2l "[]" ++ s2l "``` ")) = strip (s2l "[]").
Proof. exact (cleaned_unwraps_json_fence (s2l "[]") eq_refl). Defined.

(** ** Destination paths *)

Section Layout.

Lemma layout_segments (continent country city filename : str) :
  complete city country continent = true ->
  sep_free continent = true -> sep_free country = true ->
  sep_free city = true -> sep_free filename = true ->
  segments (destination_file continent country city filename)
  = [DESTINATION_FOLDER; continent; country; city; filename].
Proof.
  intros Hc Hcont Hcoun Hcity Hfile. unfold complete in Hc.
  apply andb_prop in Hc as [Hc Hcont_ne]. apply andb_prop in Hc as [Hcity_ne Hcoun_ne].
  unfold destination_file, destination_dir, path_join. cbn [fold_left].
  pose proof (join_step_segment [] DESTINATION_FOLDER continent
                eq_refl eq_refl Hcont) as Hroot.
  rewrite !app_nil_l in Hroot. rewrite Hroot.
  rewrite (app_assoc DESTINATION_FOLDER sep continent).
  rewrite (join_step_segment _ continent country Hcont_ne Hcont Hcoun).
  rewrite (app_assoc _ sep country).
  rewrite (join_step_segment _ country city Hcoun_ne Hcoun Hcity).
  rewrite (app_assoc _ sep city).
  rewrite (join_step_segment _ city filename Hcity_ne Hcity Hfile).
  rewrite <- !app_assoc.
  rewrite (segments_segment DESTINATION_FOLDER _ eq_refl).
  rewrite (segments_segment continent _ Hcont).
  rewrite (segments_segment country _ Hcoun).
  rewrite (segments_segment city _ Hcity).
  rewrite (segments_last filename Hfile). reflexivity.
Qed.

Lemma path_join_app (a : str) (ps qs : list str) :
  path_join a (ps ++ qs) = path_join (path_join a ps) qs.
Proof. unfold path_join. apply fold_left_app. Qed.

End Layout.

(** X8: a part that starts with the separator makes [os.path.join] forget
    what came before it: for a city that does, the destination directory is
    the city itself, whatever the root, the continent and the country; for a
    country that does and a city that does not, it lies under the country
    alone. *)
Theorem absolute_part_leaves_root (a b : str) (ps qs : list str)
        (continent country city : str) :
  startswith b sep = true ->
  startswith city sep = true ->
  path_join a (ps ++ b :: qs) = path_join b qs
  /\ destination_dir continent country city = city
  /\ destination_dir continent b country = path_join b [country].
Proof.
  intros Hb Hcity.
  assert (Hstep : forall x y, startswith y sep = true -> join_step x y = y).
  { intros x y Hy. unfold join_step. rewrite Hy. reflexivity. }
  split; [|split].
  - rewrite path_join_app. unfold path_join. cbn [fold_left].
    rewrite (Hstep _ _ Hb). reflexivity.
  - unfold destination_dir, path_join. cbn [fold_left]. apply Hstep, Hcity.
  - unfold destination_dir, path_join. cbn [fold_left].
    rewrite (Hstep _ _ Hb). reflexivity.
Qed.

Lemma absolute_part_leaves_root_witness :
  path_join (s2l "OrganizerPdfs") ([s2l "EUROPE"] ++ s2l "/srv" :: [s2l "x"])
  = path_join (s2l "/srv") [s2l "x"]
  /\ destination_dir (s2l "EUROPE") (s2l "France") (s2l "/tmp") = s2l "/tmp"
  /\ destination_dir (s2l "EUROPE") (s2l "/srv") (s2l "France")
     = path_join (s2l "/srv") [s2l "France"].
Proof.
  exact (absolute_part_leaves_root (s2l "OrganizerPdfs") (s2l "/srv")
           [s2l "EUROPE"] [s2l "x"] (s2l "EUROPE") (s2l "France") (s2l "/tmp")
           eq_refl eq_refl).
Defined.

(** ** What reaches the classifier and what comes back *)

Section Responses.
Context {U : ucd} {E : env}.

Lemma take_min {A} (n : nat) (l : list A) : take (Nat.min n (length l)) l = take n l.
Proof.
  destruct (Nat.le_ge_cases n (length l)) as [H|H].
  - rewrite Nat.min_l by exact H. reflexivity.
  - rewrite Nat.min_r by exact H. rewrite !take_ge by lia. reflexivity.
Qed.

Lemma extracted_blank (pdf_path : str) :
  unreadable pdf_path = true -> strip (extracted pdf_path) = [].
Proof.
  unfold unreadable, extracted. destruct (pdf_pages pdf_path) as [pages|];
    [|reflexivity].
  intros H. apply strip_spaces. rewrite take_min. apply forallb_flat_map.
  rewrite forallb_forall in H. apply forallb_forall. intros page Hpage.
  rewrite forallb_app, (H _ Hpage). reflexivity.
Qed.

Lemma analyze_parsed (text filename response_text : str) (v : value) (w : world) :
  generate_content filename text = Some response_text ->
  json_loads (cleaned (strip response_text)) = Some v ->
  analyze_text_with_gemini text filename w
  = (Ok v, extend w (parsed_events text filename response_text)).
Proof.
  intros Hg Hj. unfold analyze_text_with_gemini, parsed_events.
  rewrite Hg. cbn zeta. rewrite Hj.
  unfold log, emit, bind, ret, extend. cbn [copied trace].
  rewrite <- !app_assoc. reflexivity.
Qed.

End Responses.

(** X9: a PDF that cannot be opened, or whose first [PAGE_EXTRACT_LIMIT]
    pages hold nothing but white space, whatever its later pages hold, is
    reported as having no readable text: the model is not called for it and
    nothing is placed. *)
Theorem unreadable_pdf_is_not_classified {U : ucd} {E : env}
        (filename src : str) (w : world) :
  unreadable src = true ->
  process_pdf filename src w
  = (Ok tt, extend w (extraction_events src ++ [Printed MsgNoText])).
Proof.
  intros H. unfold process_pdf. unfold bind at 1.
  rewrite extract_text_run, (extracted_blank _ H). cbn [nonempty negb].
  unfold print, emit. rewrite extend_extend. reflexivity.
Qed.

Lemma unreadable_pdf_is_not_classified_witness :
  @process_pdf latin1_only scanned (s2l "scan.pdf")
     (path_join SOURCE_FOLDER [s2l "scan.pdf"]) start
  = (Ok tt,
     extend start
       (@extraction_events scanned (path_join SOURCE_FOLDER [s2l "scan.pdf"])
        ++ [Printed MsgNoText])).
Proof.
  exact (@unreadable_pdf_is_not_classified latin1_only scanned (s2l "scan.pdf")
           (path_join SOURCE_FOLDER [s2l "scan.pdf"]) start eq_refl).
Defined.

(** X10: when the response parses to a value that Python takes for false
    ([null], [false], zero, an empty string, list or object), the document
    is reported as having no destinations; nothing is placed and nothing is
    raised. *)
Theorem false_response_is_no_destination {U : ucd} {E : env}
        (filename src response_text : str) (v : value) (w : world) :
  nonempty (strip (extracted src)) = true ->
  generate_content filename (extracted src) = Some response_text ->
  json_loads (cleaned (strip response_text)) = Some v ->
  truthy v = false ->
  process_pdf filename src w
  = (Ok tt,
     extend w (extraction_events src
               ++ parsed_events (extracted src) filename response_text
               ++ [Printed MsgNoDestinations])).
Proof.
  intros Htext Hg Hj Hv. unfold process_pdf. unfold bind at 1.
  rewrite extract_text_run, Htext. cbn [negb]. unfold bind at 1.
  rewrite (analyze_parsed _ _ _ _ _ Hg Hj), Hv. cbn [negb].
  unfold print, emit. rewrite !extend_extend. reflexivity.
Qed.

Lemma false_response_is_no_destination_witness :
  @process_pdf latin1_only null_answer (s2l "trip.pdf") Scenario.trip_src start
  = (Ok tt,
     extend start
       (@extraction_events null_answer Scenario.trip_src
        ++ @parsed_events (@extracted null_answer Scenario.trip_src)
             (s2l "trip.pdf") (s2l "null")
        ++ [Printed MsgNoDestinations])).
Proof.
  exact (@false_response_is_no_destination latin1_only null_answer (s2l "trip.pdf")
           Scenario.trip_src (s2l "null") VNone start
           eq_refl eq_refl eq_refl eq_refl).
Defined.

(** X11: when the response parses to a true value that is no list (an
    object, a string, a number, [true]), the exception of the loop over it
    is not caught: processing the document raises, after the line that
    announces the destinations, and nothing is placed. *)
Theorem non_list_response_raises {U : ucd} {E : env}
        (filename src response_text : str) (v : value) (w : world) :
  nonempty (strip (extracted src)) = true ->
  generate_content filename (extracted src) = Some response_text ->
  json_loads (cleaned (strip response_text)) = Some v ->
  truthy v = true -> is_list v = false ->
  process_pdf filename src w
  = (Raise (iteration_error v),
     extend w (extraction_events src
               ++ parsed_events (extracted src) filename response_text
               ++ [Printed MsgDetected])).
Proof.
  intros Htext Hg Hj Hv Hl. unfold process_pdf. unfold bind at 1.
  rewrite extract_text_run, Htext. cbn [negb]. unfold bind at 1.
  rewrite (analyze_parsed _ _ _ _ _ Hg Hj), Hv. cbn [negb].
  unfold bind at 1. unfold print at 1, emit at 1. rewrite !extend_extend.
  destruct v as [|b|z|f|[|c s]|items|[|[k x] items]];
    try discriminate; reflexivity.
Qed.

Lemma non_list_response_raises_witness :
  @process_pdf latin1_only one_object (s2l "trip.pdf") Scenario.trip_src start
  = (Raise AttributeError,
     extend start
       (@extraction_events one_object Scenario.trip_src
        ++ @parsed_events (@extracted one_object Scenario.trip_src)
             (s2l "trip.pdf") (s2l "{...}")
        ++ [Printed MsgDetected])).
Proof.
  exact (@non_list_response_raises latin1_only one_object (s2l "trip.pdf")
           Scenario.trip_src (s2l "{...}") Scenario.paris start
           eq_refl eq_refl eq_refl eq_refl eq_refl).
Defined.

(** ** Records *)

Section Fields.
Context {U : ucd} {E : env}.

Lemma get_field_missing (items : list (str * value)) (k1 k2 : str) :
  field_missing items k1 k2 = true ->
  get_field (VDict items) k1 k2 = Ok (VStr []).
Proof.
  unfold field_missing, get_field, py_or. intros H.
  apply andb_prop in H as [H1 H2].
  apply negb_true_iff in H1. apply negb_true_iff in H2.
  rewrite H1, H2. reflexivity.
Qed.

End Fields.

(** X13: a record in which a field is absent, [null] or empty under both
    of its names, and whose other fields normalise, is logged as incomplete
    and not placed; no [KeyError] is raised for the missing key. *)
Theorem missing_field_is_incomplete {U : ucd} {E : env}
        (filename src : str) (items : list (str * value)) (w : world)
        (m : message) (city country continent : str) :
  field_missing items (s2l "city") (s2l "cidade")
  || field_missing items (s2l "country") (s2l "pais")
  || field_missing items (s2l "continent") (s2l "continente") = true ->
  resolve (VDict items) = Ok (m, (city, country, continent)) ->
  complete city country continent = false
  /\ process_destination filename src (VDict items) w
     = (Ok tt, extend w [Printed m; Logged LOG_JSON (MsgIncomplete filename (VDict items))]).
Proof.
  intros Hmiss Hres.
  assert (Hc : complete city country continent = false).
  { apply complete_false_iff. unfold resolve in Hres.
    apply orb_prop in Hmiss as [Hmiss|Hmiss]; [apply orb_prop in Hmiss as [Hmiss|Hmiss]|];
      pose proof (get_field_missing _ _ _ Hmiss) as Hf.
    - rewrite Hf in Hres. cbn [rbind] in Hres.
      destruct (get_field (VDict items) (s2l "country") (s2l "pais")) as [country_raw|];
        cbn [rbind] in Hres; [|discriminate].
      destruct (get_field (VDict items) (s2l "continent") (s2l "continente"))
        as [continent_raw|]; cbn [rbind] in Hres; [|discriminate].
      change (call_normalize_city (VStr [])) with (@Ok str []) in Hres.
      cbn [rbind] in Hres.
      destruct (call_normalize_country country_raw); cbn [rbind] in Hres; [|discriminate].
      destruct (call_upper continent_raw); cbn [rbind] in Hres; [|discriminate].
      injection Hres as _ <- _ _. left. reflexivity.
    - destruct (get_field (VDict items) (s2l "city") (s2l "cidade")) as [city_raw|];
        cbn [rbind] in Hres; [|discriminate].
      rewrite Hf in Hres. cbn [rbind] in Hres.
      destruct (get_field (VDict items) (s2l "continent") (s2l "continente"))
        as [continent_raw|]; cbn [rbind] in Hres; [|discriminate].
      destruct (call_normalize_city city_raw); cbn [rbind] in Hres; [|discriminate].
      change (call_normalize_country (VStr [])) with (@Ok str []) in Hres.
      cbn [rbind] in Hres.
      destruct (call_upper continent_raw); cbn [rbind] in Hres; [|discriminate].
      injection Hres as _ _ <- _. right. left. reflexivity.
    - destruct (get_field (VDict items) (s2l "city") (s2l "cidade")) as [city_raw|];
        cbn [rbind] in Hres; [|discriminate].
      destruct (get_field (VDict items) (s2l "country") (s2l "pais")) as [country_raw|];
        cbn [rbind] in Hres; [|discriminate].
      rewrite Hf in Hres. cbn [rbind] in Hres.
      destruct (call_normalize_city city_raw); cbn [rbind] in Hres; [|discriminate].
      destruct (call_normalize_country country_raw); cbn [rbind] in Hres; [|discriminate].
      change (call_upper (VStr [])) with (@Ok str []) in Hres.
      cbn [rbind] in Hres.
      injection Hres as _ _ _ <-. right. right. reflexivity. }
  split; [exact Hc|].
  rewrite (process_destination_resolved _ _ _ _ _ _ _ _ Hres), Hc.
  cbn [negb]. unfold log, emit. rewrite extend_extend. reflexivity.
Qed.

Lemma missing_field_is_incomplete_witness :
  complete [] (s2l "France") (s2l "EUROPE") = false
  /\ @process_destination latin1_only Scenario.offline
       (s2l "trip.pdf") Scenario.trip_src no_city start
     = (Ok tt,
        extend start
          [ Printed (MsgRaw (VStr []) (VStr (s2l "France")) (VStr (s2l "europe")));
            Logged LOG_JSON (MsgIncomplete (s2l "trip.pdf") no_city) ]).
Proof.
  apply (@missing_field_is_incomplete latin1_only Scenario.offline
           (s2l "trip.pdf") Scenario.trip_src
           [ (s2l "city", VNone); (s2l "country", VStr (s2l "France"));
             (s2l "continent", VStr (s2l "europe")) ]
           start
           (MsgRaw (VStr []) (VStr (s2l "France")) (VStr (s2l "europe")))
           [] (s2l "France") (s2l "EUROPE")).
  - reflexivity.
  - vm_compute. reflexivity.
Defined.

(** X14: two records of one document that normalise to the same city,
    country and continent, however they are spelt, are placed once: when the
    directory can be made and the copy succeeds, the first is copied and the
    second is reported as already copied. *)
Theorem same_destination_is_copied_once {U : ucd} {E : env}
        (filename src : str) (d1 d2 : value) (w : world) (m1 m2 : message)
        (city country continent : str) :
  resolve d1 = Ok (m1, (city, country, continent)) ->
  resolve d2 = Ok (m2, (city, country, continent)) ->
  complete city country continent = true ->
  key_of src (destination_file continent country city filename) ∉ copied w ->
  (forall history, makedirs_ok history (destination_dir continent country city) = true) ->
  copy2_ok (trace w ++ [Printed m1; Makedirs (destination_dir continent country city) true])
    src (destination_file continent country city filename) = true ->
  for_each [d1; d2] (process_destination filename src) w
  = (Ok tt,
     World ({[ key_of src (destination_file continent country city filename) ]} ∪ copied w)
       (trace w
        ++ [ Printed m1; Makedirs (destination_dir continent country city) true;
             Copy2 src (destination_file continent country city filename) true;
             Printed (MsgCopied (destination_dir continent country city));
             Printed m2; Makedirs (destination_dir continent country city) true;
             Printed MsgAlreadyCopied ])).
Proof.
  intros H1 H2 Hc Hnew Hmk Hcp.
  pose proof (placement_run filename src d1 w m1 city country continent H1 Hc) as P1.
  cbn zeta in P1. rewrite Hmk, (bool_decide_eq_false_2 _ Hnew) in P1.
  rewrite <- app_assoc in P1. cbn [app] in P1. rewrite Hcp in P1.
  rewrite (for_each_cons _ _ _ _ _ P1).
  match goal with |- for_each _ _ ?w1 = _ =>
    pose proof (placement_run filename src d2 w1 m2 city country continent H2 Hc) as P2
  end.
  cbn zeta in P2. cbn [copied trace] in P2. rewrite Hmk in P2.
  rewrite bool_decide_eq_true_2 in P2 by set_solver.
  rewrite (for_each_cons _ _ _ _ _ P2). cbn [for_each]. unfold ret.
  rewrite <- !app_assoc. reflexivity.
Qed.

Lemma same_destination_is_copied_once_witness :
  @for_each value [Scenario.paris; paris_spaced]
    (@process_destination latin1_only Scenario.offline (s2l "trip.pdf") Scenario.trip_src)
    start
  = (Ok tt,
     World ({[ @key_of Scenario.offline Scenario.trip_src
                 (destination_file (s2l "EUROPE") (s2l "France") (s2l "Paris")
                    (s2l "trip.pdf")) ]} ∪ copied start)
       (trace start
        ++ [ Printed Scenario.paris_raw;
             Makedirs (destination_dir (s2l "EUROPE") (s2l "France") (s2l "Paris")) true;
             Copy2 Scenario.trip_src
               (destination_file (s2l "EUROPE") (s2l "France") (s2l "Paris")
                  (s2l "trip.pdf")) true;
             Printed (MsgCopied (destination_dir (s2l "EUROPE") (s2l "France") (s2l "Paris")));
             Printed (MsgRaw (VStr (s2l "  PARIS ")) (VStr (s2l "france"))
                        (VStr (s2l "Europe")));
             Makedirs (destination_dir (s2l "EUROPE") (s2l "France") (s2l "Paris")) true;
             Printed MsgAlreadyCopied ])).
Proof.
  apply (@same_destination_is_copied_once latin1_only Scenario.offline
           (s2l "trip.pdf") Scenario.trip_src Scenario.paris paris_spaced start
           Scenario.paris_raw
           (MsgRaw (VStr (s2l "  PARIS ")) (VStr (s2l "france")) (VStr (s2l "Europe")))
           (s2l "Paris") (s2l "France") (s2l "EUROPE")).
  - vm_compute. reflexivity.
  - vm_compute. reflexivity.
  - reflexivity.
  - apply not_elem_of_empty.
  - intros history. reflexivity.
  - reflexivity.
Defined.

(** X15: [os.makedirs] is called outside the [try]: when it raises for the
    directory of a complete record, the exception leaves the loop over the
    records; the records that follow are not looked at and nothing is
    copied. *)
Theorem makedirs_failure_aborts {U : ucd} {E : env}
        (filename src : str) (d : value) (rest : list value) (w : world)
        (m : message) (city country continent : str) :
  resolve d = Ok (m, (city, country, continent)) ->
  complete city country continent = true ->
  makedirs_ok (trace w ++ [Printed m]) (destination_dir continent country city) = false ->
  for_each (d :: rest) (process_destination filename src) w
  = (Raise OSError,
     extend w [Printed m; Makedirs (destination_dir continent country city) false]).
Proof.
  intros Hres Hc Hmk. apply for_each_raise.
  pose proof (placement_run filename src d w m city country continent Hres Hc) as P.
  cbn zeta in P. rewrite Hmk in P. rewrite P.
  unfold extend. rewrite <- app_assoc. reflexivity.
Qed.

Lemma makedirs_failure_aborts_witness :
  @for_each value [Scenario.paris; Scenario.tokyo]
    (@process_destination latin1_only read_only (s2l "trip.pdf") Scenario.trip_src)
    start
  = (Raise OSError,
     extend start
       [ Printed Scenario.paris_raw;
         Makedirs (destination_dir (s2l "EUROPE") (s2l "France") (s2l "Paris")) false ]).
Proof.
  exact (@makedirs_failure_aborts latin1_only read_only (s2l "trip.pdf")
           Scenario.trip_src Scenario.paris [Scenario.tokyo] start Scenario.paris_raw
           (s2l "Paris") (s2l "France") (s2l "EUROPE") eq_refl eq_refl eq_refl).
Defined.

(** ** What a run may leave in its trace *)

Section TraceInvariant.
Context {U : ucd} {E : env}.
Variable ok : event -> Prop.
Hypothesis ok_print : forall m, ok (Printed m).
Hypothesis ok_log : forall f m, is_header m = false -> ok (Logged f m).
Hypothesis ok_makedirs : forall path b, ok (Makedirs path b).

Lemma trace_inv_extend (w : world) (evs : list event) :
  Forall ok evs -> trace_inv ok w -> trace_inv ok (extend w evs).
Proof.
  intros Hevs Hw. unfold trace_inv, extend. cbn [trace].
  apply Forall_app. split; assumption.
Qed.

Lemma trace_inv_emit (e : event) : ok e -> preserves (trace_inv ok) (emit e).
Proof.
  intros He. apply preserves_emit. intros w. apply trace_inv_extend.
  constructor; [exact He | constructor].
Qed.

Lemma trace_inv_makedirs (path : str) : preserves (trace_inv ok) (makedirs path).
Proof.
  intros w Hw. unfold makedirs. cbn [snd]. apply trace_inv_extend; [|exact Hw].
  constructor; [apply ok_makedirs | constructor].
Qed.

Lemma trace_inv_copy2 (src dst : str) :
  (forall b, ok (Copy2 src dst b)) -> preserves (trace_inv ok) (copy2 src dst).
Proof.
  intros Hc w Hw. unfold copy2. cbn [snd]. apply trace_inv_extend; [|exact Hw].
  constructor; [apply Hc | constructor].
Qed.

Lemma trace_inv_key_in_copied (key : str * str) :
  preserves (trace_inv ok) (key_in_copied key).
Proof. intros w Hw. exact Hw. Qed.

Lemma trace_inv_add_copied (key : str * str) :
  preserves (trace_inv ok) (add_copied key).
Proof. intros w Hw. exact Hw. Qed.

Lemma preserves_for_each_in {A} (I : world -> Prop) (xs : list A) (body : A -> M unit) :
  (forall x, In x xs -> preserves I (body x)) -> preserves I (for_each xs body).
Proof.
  induction xs as [|x xs IH]; intros Hbody; cbn [for_each].
  - apply preserves_ret.
  - apply preserves_bind; [apply Hbody; left; reflexivity|].
    intros _. apply IH. intros y Hy. apply Hbody. right. exact Hy.
Qed.

Ltac trace_steps :=
  repeat first
    [ apply preserves_ret | apply preserves_raise | apply preserves_lift
    | apply trace_inv_key_in_copied | apply trace_inv_add_copied
    | apply trace_inv_makedirs
    | apply trace_inv_copy2; solve [auto]
    | apply trace_inv_emit;
      solve [ apply ok_print | apply ok_log; reflexivity | auto ]
    | apply preserves_for_each; intros ?
    | apply preserves_bind; [|intros ?]
    | match goal with
      | |- preserves _ (if ?b then _ else _) => destruct b
      | |- preserves _ (match ?x with _ => _ end) => destruct x
      end ].

(** The part of the loop over the names that deals with one PDF. *)
Lemma trace_inv_process_pdf (filename src : str) :
  ok (FitzOpen src) ->
  (forall text, ok (GenerateContent filename text)) ->
  (forall dst b, ok (Copy2 src dst b)) ->
  preserves (trace_inv ok) (process_pdf filename src).
Proof.
  intros Hfitz Hgen Hcopy.
  unfold process_pdf, extract_text, analyze_text_with_gemini, process_destination,
    print, log.
  cbn zeta. trace_steps.
Qed.

Lemma trace_inv_headers (title : str) :
  (forall f, ok (Logged f (MsgHeader title))) ->
  preserves (trace_inv ok) (log_header title).
Proof.
  intros H. unfold log_header, log.
  repeat (apply preserves_bind; [apply trace_inv_emit, H | intros _]).
  apply trace_inv_emit, H.
Qed.

End TraceInvariant.

Section Sources.
Context {U : ucd} {E : env}.

Lemma eligible_in (keywords names : list str) (f : str) :
  In f names ->
  endswith (lower f) (s2l ".pdf") = true ->
  keyword_filter keywords f = false ->
  In f (eligible keywords names).
Proof.
  intros Hin Hpdf Hkw. unfold eligible. apply filter_In.
  split; [exact Hin|]. rewrite Hpdf, Hkw. reflexivity.
Qed.

Lemma sources_process_file (keywords names : list str) (f : str) :
  In f names ->
  preserves (trace_inv (concerns (eligible keywords names))) (process_file keywords f).
Proof.
  intros Hin. unfold process_file.
  destruct (endswith (lower f) (s2l ".pdf")) eqn:Hpdf; cbn [negb];
    [|apply preserves_ret].
  apply preserves_bind; [apply trace_inv_emit; exact I | intros _]. cbn zeta.
  destruct (keyword_filter keywords f) eqn:Hkw.
  - apply preserves_bind; [|intros _]; apply trace_inv_emit; exact I.
  - pose proof (eligible_in _ _ _ Hin Hpdf Hkw) as Hf.
    apply trace_inv_process_pdf.
    + intros m. exact I.
    + intros g m _. exact I.
    + intros path b. exact I.
    + exists f. split; [exact Hf | reflexivity].
    + intros text. exact Hf.
    + intros dst b. exists f. split; [exact Hf | reflexivity].
Qed.

Lemma end_header_process_file (keywords : list str) (f : str) :
  preserves (trace_inv (fun e => is_end_header e = false)) (process_file keywords f).
Proof.
  unfold process_file.
  destruct (negb (endswith (lower f) (s2l ".pdf"))); [apply preserves_ret|].
  apply preserves_bind; [apply trace_inv_emit; reflexivity | intros _]. cbn zeta.
  destruct (keyword_filter keywords f).
  - apply preserves_bind; [|intros _]; apply trace_inv_emit; reflexivity.
  - apply trace_inv_process_pdf; try reflexivity.
    intros g m Hm. destruct m; try discriminate; reflexivity.
Qed.

End Sources.

(** X16: in a run of [main], whatever the ignore keywords and whatever the
    collaborators do, a file is opened, sent to the model or copied only if
    it is a name of the listing of the source folder that ends in ".pdf" and
    holds no ignore keyword; what is opened and what is copied is that name
    joined to the source folder. *)
Theorem run_touches_only_eligible_pdfs {U : ucd} {E : env} (keywords : list str) :
  Forall (concerns (eligible keywords listing))
    (trace (snd (main_with keywords start))).
Proof.
  rewrite main_with_run. cbn zeta. unfold listing.
  destruct (makedirs_ok _ _); [|cbn [snd trace]; repeat constructor].
  destruct (listdir SOURCE_FOLDER) as [names|]; cbn [default];
    [|cbn [snd trace]; repeat constructor].
  assert (Hrest : preserves (trace_inv (concerns (eligible keywords names)))
                    (for_each names (process_file keywords) >>
                     log_header (s2l "END") >> print MsgDone)).
  { apply preserves_bind;
      [apply preserves_for_each_in; intros f Hf; apply sources_process_file, Hf|].
    intros _. apply preserves_bind; [|intros _; apply trace_inv_emit; exact I].
    apply trace_inv_headers. intros f. exact I. }
  apply Hrest. unfold trace_inv. cbn [trace]. repeat constructor.
Qed.

(** X17: a run of [main] that ends normally has logged the END block and
    printed the closing line last, and the END block nowhere before; a run
    that ends with an exception, whichever it is, has not logged the END
    block at all. *)
Theorem end_block_marks_completion {U : ucd} {E : env} (keywords : list str) :
  match fst (main_with keywords start) with
  | Ok _ =>
      exists before,
        trace (snd (main_with keywords start))
        = before ++ header (s2l "END") ++ [Printed MsgDone]
        /\ no_end_header before
  | Raise _ => no_end_header (trace (snd (main_with keywords start)))
  end.
Proof.
  rewrite main_with_run. cbn zeta. unfold no_end_header.
  destruct (makedirs_ok _ _); [|cbn [fst snd trace]; repeat constructor].
  destruct (listdir SOURCE_FOLDER) as [names|];
    [|cbn [fst snd trace]; repeat constructor].
  match goal with |- context [bind _ _ ?w1] => set (listed := w1) end.
  assert (Hloop : trace_inv (fun e => is_end_header e = false)
                    (snd (for_each names (process_file keywords) listed))).
  { apply (preserves_for_each _ names (process_file keywords));
      [intros f; apply end_header_process_file|].
    unfold trace_inv, listed. cbn [trace]. repeat constructor. }
  destruct (for_each names (process_file keywords) listed) as [[[]|e] w2] eqn:Hrun;
    cbn [snd] in Hloop.
  - assert (Hall : (for_each names (process_file keywords) >>
                    log_header (s2l "END") >> print MsgDone) listed
                   = (Ok tt, extend w2 (header (s2l "END") ++ [Printed MsgDone]))).
    { unfold bind at 1. rewrite Hrun. unfold bind at 1. rewrite log_header_run.
      unfold print, emit. rewrite extend_extend. reflexivity. }
    rewrite Hall. cbn [fst snd extend trace].
    exists (trace w2). split; [reflexivity | exact Hloop].
  - assert (Hall : (for_each names (process_file keywords) >>
                    log_header (s2l "END") >> print MsgDone) listed
                   = (Raise e, w2)).
    { unfold bind at 1. rewrite Hrun. reflexivity. }
    rewrite Hall. exact Hloop.
Qed.

(** X18: [extract_text] returns the text of the first [limit] pages of a
    PDF, a line feed after each, and of all of them when the PDF has no more
    than [limit]; the pages after these have no part in it. It raises
    nothing and writes to no log when the PDF opens. *)
Theorem extract_text_reads_first_pages {U : ucd} {E : env}
        (pdf_path : str) (limit : nat) (first more : list str) (w : world) :
  pdf_pages pdf_path = Some (first ++ more) ->
  length first = limit \/ (more = [] /\ (length first <= limit)%nat) ->
  extract_text pdf_path limit w
  = (Ok (flat_map (fun page => page ++ [0x0A]) first), extend w [FitzOpen pdf_path]).
Proof.
  intros Hp Hlen. unfold extract_text, bind, emit, ret. rewrite Hp, take_min.
  assert (Htake : take limit (first ++ more) = first).
  { destruct Hlen as [<-|[-> Hle]].
    - apply take_app_length.
    - rewrite app_nil_r. apply take_ge, Hle. }
  rewrite Htake. reflexivity.
Qed.

Lemma extract_text_reads_first_pages_witness :
  @extract_text scanned (path_join SOURCE_FOLDER [s2l "scan.pdf"]) PAGE_EXTRACT_LIMIT start
  = (Ok (flat_map (fun page => page ++ [0x0A]) [s2l " "; []]),
     extend start [FitzOpen (path_join SOURCE_FOLDER [s2l "scan.pdf"])]).
Proof.
  apply (@extract_text_reads_first_pages latin1_only scanned
           (path_join SOURCE_FOLDER [s2l "scan.pdf"]) PAGE_EXTRACT_LIMIT
           [s2l " "; []] [s2l "page three"] start).
  - reflexivity.
  - left. reflexivity.
Defined.

Section BadRecords.
Context {U : ucd} {E : env}.

Lemma call_normalize_city_no_string (v : value) :
  no_string v = true -> call_normalize_city v = Raise AttributeError.
Proof.
  unfold no_string, call_normalize_city. intros H.
  apply andb_prop in H as [Ht Hs]. rewrite Ht. destruct v; try discriminate; reflexivity.
Qed.

Lemma call_normalize_country_no_string (v : value) :
  no_string v = true -> call_normalize_country v = Raise AttributeError.
Proof.
  unfold no_string, call_normalize_country. intros H.
  apply andb_prop in H as [Ht Hs]. rewrite Ht. destruct v; try discriminate; reflexivity.
Qed.

Lemma call_upper_no_string (v : value) :
  no_string v = true -> call_upper v = Raise AttributeError.
Proof.
  unfold no_string, call_upper. intros H.
  apply andb_prop in H as [Ht Hs]. destruct v; try discriminate; reflexivity.
Qed.

(** Whatever a record holds, normalising a field gives a string or raises
    [AttributeError]. *)
Lemma call_normalize_cases (v : value) :
  (exists s, call_normalize_city v = Ok s) \/ call_normalize_city v = Raise AttributeError.
Proof.
  unfold call_normalize_city. destruct (truthy v); cbn [negb]; [|left; eexists; reflexivity].
  destruct v; (left; eexists; reflexivity) || (right; reflexivity).
Qed.

Lemma call_normalize_country_cases (v : value) :
  (exists s, call_normalize_country v = Ok s)
  \/ call_normalize_country v = Raise AttributeError.
Proof.
  unfold call_normalize_country. destruct (truthy v); cbn [negb];
    [|left; eexists; reflexivity].
  destruct v; (left; eexists; reflexivity) || (right; reflexivity).
Qed.

End BadRecords.

(** X19: a record that is no object, or an object in which the city, the
    country or the continent is a true value that is no string (a number,
    [true], a list, an object), is not set aside as incomplete: the loop
    over the records raises [AttributeError], for the object after the line
    that prints its raw fields, and the records that follow are not looked
    at. *)
Theorem malformed_record_raises {U : ucd} {E : env}
        (filename src : str) (d : value) (rest : list value) (w : world)
        (city_raw country_raw continent_raw : value) :
  (is_dict d = false
   \/ (get_field d (s2l "city") (s2l "cidade") = Ok city_raw
       /\ get_field d (s2l "country") (s2l "pais") = Ok country_raw
       /\ get_field d (s2l "continent") (s2l "continente") = Ok continent_raw
       /\ no_string city_raw || no_string country_raw || no_string continent_raw = true)) ->
  for_each (d :: rest) (process_destination filename src) w
  = (Raise AttributeError,
     if is_dict d then extend w [Printed (MsgRaw city_raw country_raw continent_raw)]
     else w).
Proof.
  intros [Hd|[Hcity [Hcountry [Hcontinent Hbad]]]]; apply for_each_raise.
  - rewrite Hd. destruct d; try discriminate; reflexivity.
  - assert (Hdict : is_dict d = true).
    { destruct d; try discriminate; reflexivity. }
    rewrite Hdict. unfold process_destination.
    rewrite Hcity, Hcountry, Hcontinent.
    cbv beta iota delta [bind lift print emit].
    apply orb_prop in Hbad as [Hbad|Hbad]; [apply orb_prop in Hbad as [Hbad|Hbad]|].
    + rewrite (call_normalize_city_no_string _ Hbad). reflexivity.
    + rewrite (call_normalize_country_no_string _ Hbad).
      destruct (call_normalize_cases city_raw) as [[s ->]| ->]; reflexivity.
    + rewrite (call_upper_no_string _ Hbad).
      destruct (call_normalize_cases city_raw) as [[s ->]| ->]; [|reflexivity].
      destruct (call_normalize_country_cases country_raw) as [[s' ->]| ->]; reflexivity.
Qed.

Lemma malformed_record_raises_witness :
  @for_each value [VStr (s2l "Paris, France"); Scenario.paris]
    (@process_destination latin1_only Scenario.offline (s2l "trip.pdf") Scenario.trip_src)
    start
  = (Raise AttributeError, start)
  /\ @for_each value [numeric_city; Scenario.paris]
       (@process_destination latin1_only Scenario.offline (s2l "trip.pdf") Scenario.trip_src)
       start
     = (Raise AttributeError,
        extend start
          [Printed (MsgRaw (VInt 75001) (VStr (s2l "France")) (VStr (s2l "europe")))]).
Proof.
  split.
  - apply (@malformed_record_raises latin1_only Scenario.offline (s2l "trip.pdf")
             Scenario.trip_src (VStr (s2l "Paris, France")) [Scenario.paris] start
             VNone VNone VNone).
    left. reflexivity.
  - apply (@malformed_record_raises latin1_only Scenario.offline (s2l "trip.pdf")
             Scenario.trip_src numeric_city [Scenario.paris] start
             (VInt 75001) (VStr (s2l "France")) (VStr (s2l "europe"))).
    right. repeat split; reflexivity.
Defined.

(** ** Words, single spaces and case *)

Section Words.
Context {U : ucd}.

Lemma split_word_then_space (lead w gap rest : str) :
  forallb isspace lead = true -> word w = true ->
  forallb isspace gap = true -> nonempty gap = true ->
  split (lead ++ w ++ gap ++ rest) = w :: split rest.
Proof.
  intros Hl Hw Hg Hne. rewrite (split_leading _ _ Hl).
  destruct (word_parts _ Hw) as [Hrev Hchars].
  unfold split. rewrite (split_from_word _ _ _ Hchars), app_nil_r.
  destruct gap as [|g gap]; [discriminate|].
  cbn [forallb] in Hg. apply andb_prop in Hg as [Hg Hgap].
  cbn [app split_from]. rewrite Hg, Hrev, rev_involutive.
  f_equal. apply (split_leading _ _ Hgap).
Qed.

Lemma split_one_word (lead w trail : str) :
  forallb isspace lead = true -> word w = true -> forallb isspace trail = true ->
  split (lead ++ w ++ trail) = [w].
Proof.
  intros Hl Hw Ht. rewrite (split_pad _ _ _ Hl Ht).
  destruct (word_parts _ Hw) as [Hrev Hchars].
  unfold split. pose proof (split_from_word [] w [] Hchars) as H.
  rewrite !app_nil_r in H. rewrite H. cbn [split_from].
  rewrite Hrev, rev_involutive. reflexivity.
Qed.

(** Text that is not all white space has a word. *)
Lemma split_some_word (s : str) :
  forallb isspace s = false -> nonempty (split s) = true.
Proof.
  intros Hs. destruct (split s) as [|w ws] eqn:Hsplit; [|reflexivity].
  pose proof (split_from_concat [] s) as Hc. fold (split s) in Hc.
  rewrite Hsplit in Hc. cbn [concat rev app] in Hc.
  assert (Hall : forallb isspace s = true).
  { clear -Hc. induction s as [|c s IH]; [reflexivity|].
    cbn [List.filter forallb] in *. destruct (isspace c); cbn [negb] in Hc.
    - apply IH, Hc.
    - discriminate. }
  rewrite Hall in Hs. discriminate.
Qed.

Lemma join_cons (sep w : str) (ws : list str) :
  nonempty ws = true -> join sep (w :: ws) = w ++ sep ++ join sep ws.
Proof. destruct ws; [discriminate | reflexivity]. Qed.

Lemma ascii_table : forallb ascii_table_agrees latin1_range = true.
Proof. vm_compute. reflexivity. Qed.

Lemma is_ascii_latin1 (c : N) : is_ascii c = true -> is_latin1 c = true.
Proof.
  unfold is_ascii, is_latin1. intros H. apply N.ltb_lt in H. apply N.ltb_lt. lia.
Qed.

Lemma ascii_facts (c : N) :
  is_ascii c = true ->
  totitle c = [ascii_upper c] /\ tolower c = [ascii_lower c]
  /\ iscased c = ascii_letter c
  /\ isalnum c || isspace c = ascii_alnum_or_space c
  /\ (c =? 0x3A3) = false.
Proof.
  intros Hc. pose proof (is_ascii_latin1 _ Hc) as Hl.
  pose proof (latin1_forall _ _ ascii_table Hl) as H.
  unfold ascii_table_agrees in H. rewrite Hc in H. cbn [negb orb] in H.
  apply andb_prop in H as [H H4]. apply andb_prop in H as [H H3].
  apply andb_prop in H as [H1 H2].
  apply bool_decide_eq_true in H1, H2, H3, H4.
  unfold totitle, tolower, iscased, isalnum. rewrite Hl.
  repeat split; try assumption.
  apply N.eqb_neq. unfold is_ascii in Hc. apply N.ltb_lt in Hc. lia.
Qed.

Lemma lower_from_ascii (before s : str) :
  forallb is_ascii s = true -> lower_from before s = map ascii_lower s.
Proof.
  revert before. induction s as [|c s IH]; intros before H; [reflexivity|].
  cbn [forallb] in H. apply andb_prop in H as [Hc Hs].
  destruct (ascii_facts _ Hc) as [_ [Hlow [_ [_ Hsigma]]]].
  cbn [lower_from map]. unfold lower_ucs4. rewrite Hsigma, Hlow, (IH _ Hs).
  reflexivity.
Qed.

(** An ASCII word is capitalised as the words say. *)
Lemma capitalize_ascii (w : str) :
  forallb is_ascii w = true -> capitalize w = ascii_capitalize w.
Proof.
  destruct w as [|c rest]; [reflexivity|]. cbn [forallb]. intros H.
  apply andb_prop in H as [Hc Hrest].
  destruct (ascii_facts _ Hc) as [Htitle _].
  unfold capitalize, ascii_capitalize.
  rewrite Htitle, (lower_from_ascii _ _ Hrest). reflexivity.
Qed.


End Words.

(** C2 (amended): white space alone gives the empty city; a single word,
    with white space around it or not, gives that word capitalised; a word
    followed by white space and by text that holds another word gives the
    word capitalised, one space (U+0020) and the normalised rest. A word is
    a maximal run of characters that are not white space, so the input is
    trimmed and every run of white space inside it becomes one space.
    Capitalising puts the first character of the word in title case and
    lowers all the others, for ASCII: the first letter upper-cased, every
    other letter lower-cased, capitals inside the word included. *)
Theorem normalize_city_capitalizes_words {U : ucd} (lead w gap rest trail : str) :
  forallb isspace lead = true -> forallb isspace trail = true ->
  forallb isspace gap = true -> nonempty gap = true -> word w = true ->
  normalize_city [] = []
  /\ normalize_city (lead ++ trail) = []
  /\ normalize_city (lead ++ w ++ trail) = capitalize w
  /\ (forallb isspace rest = false ->
      normalize_city (lead ++ w ++ gap ++ rest)
      = capitalize w ++ [0x20] ++ normalize_city rest)
  /\ (forallb is_ascii w = true -> capitalize w = ascii_capitalize w)
  /\ (forall c others, capitalize (c :: others) = totitle c ++ lower_from [c] others)
  /\ normalize_city (s2l "  s" ++ [0xE3] ++ s2l "o   paulo ")
     = s2l "S" ++ [0xE3] ++ s2l "o Paulo"
  /\ normalize_city (s2l "mcAllen") = s2l "Mcallen".
Proof.
  intros Hl Ht Hg Hne Hw.
  split; [reflexivity|]. split.
  { rewrite normalize_city_split, <- (app_nil_l trail), (split_pad _ _ _ Hl Ht).
    reflexivity. }
  split.
  { rewrite normalize_city_split, (split_one_word _ _ _ Hl Hw Ht). reflexivity. }
  split.
  { intros Hrest. rewrite !normalize_city_split.
    rewrite (split_word_then_space _ _ _ _ Hl Hw Hg Hne). cbn [map].
    rewrite join_cons; [reflexivity|].
    pose proof (split_some_word _ Hrest) as Hsome.
    destruct (split rest); [discriminate | reflexivity]. }
  split; [apply capitalize_ascii|].
  split; [intros; reflexivity|].
  split; vm_compute; reflexivity.
Qed.

Lemma normalize_city_capitalizes_words_witness :
  @normalize_city latin1_only (s2l "  " ++ s2l "nEW" ++ s2l "   " ++ s2l "yORK ")
  = @capitalize latin1_only (s2l "nEW") ++ [0x20]
    ++ @normalize_city latin1_only (s2l "yORK ")
  /\ @normalize_city latin1_only (s2l "  " ++ s2l "yORK" ++ s2l " ")
     = @capitalize latin1_only (s2l "yORK")
  /\ @capitalize latin1_only (s2l "yORK") = s2l "York".
Proof.
  destruct (@normalize_city_capitalizes_words latin1_only
              (s2l "  ") (s2l "nEW") (s2l "   ") (s2l "yORK ") (s2l " ")
              eq_refl eq_refl eq_refl eq_refl eq_refl)
    as [_ [_ [_ [Hrest _]]]].
  destruct (@normalize_city_capitalizes_words latin1_only
              (s2l "  ") (s2l "yORK") (s2l " ") [] (s2l " ")
              eq_refl eq_refl eq_refl eq_refl eq_refl)
    as [_ [_ [Hone [_ [Hascii _]]]]].
  split; [exact (Hrest eq_refl)|]. split; [exact Hone|].
  rewrite (Hascii eq_refl). reflexivity.
Defined.

(** ** Trimming and the fallback of the country *)

Section Trimming.
Context {U : ucd}.






End Trimming.



(** C5, as the claim states it, fails: the test of line 244 is reached only
    when all three fields have been normalised. A record whose city is empty
    and whose country is a number, or whose country is empty and whose city
    is a number, is not logged as incomplete: the loop over the records
    raises [AttributeError] and the record that follows is not looked at. *)
Lemma empty_field_beside_bad_field_raises :
  @call_normalize_city latin1_only (VStr []) = Ok []
  /\ @for_each value [empty_city_numeric_country; Scenario.paris]
       (@process_destination latin1_only Scenario.offline (s2l "trip.pdf") Scenario.trip_src)
       start
     = (Raise AttributeError,
        extend start [Printed (MsgRaw (VStr []) (VInt 33) (VStr (s2l "europe")))])
  /\ @for_each value [empty_country_numeric_city; Scenario.paris]
       (@process_destination latin1_only Scenario.offline (s2l "trip.pdf") Scenario.trip_src)
       start
     = (Raise AttributeError,
        extend start [Printed (MsgRaw (VInt 75001) (VStr []) (VStr (s2l "europe")))])
  /\ fst (@process_destination latin1_only Scenario.offline (s2l "trip.pdf")
            Scenario.trip_src empty_city_numeric_country start)
     <> Ok tt.
Proof.
  split; [reflexivity|]. split; [vm_compute; reflexivity|].
  split; [vm_compute; reflexivity|]. vm_compute. discriminate.
Qed.

(** C9, as the claim states it, fails: a response that parses is returned
    as it was parsed, whatever its shape. When the model answers with one
    JSON object instead of a list, [analyze_text_with_gemini] returns the
    object, not the empty list, and the loop of [main] over it raises
    [AttributeError]: the document that follows in the listing is not
    processed. *)
Lemma object_response_is_returned_as_parsed :
  fst (@analyze_text_with_gemini one_object
         (@extracted one_object Scenario.trip_src) (s2l "trip.pdf") start)
  = Ok Scenario.paris
  /\ fst (@analyze_text_with_gemini one_object
            (@extracted one_object Scenario.trip_src) (s2l "trip.pdf") start)
     <> Ok (VList [])
  /\ fst (@process_file latin1_only one_object [] (s2l "trip.pdf") start)
     = Raise AttributeError
  /\ @for_each str [s2l "trip.pdf"; s2l "visa.pdf"]
       (@process_file latin1_only one_object []) start
     = @process_file latin1_only one_object [] (s2l "trip.pdf") start
  /\ fst (@main_with latin1_only one_object [] start) = Raise AttributeError.
Proof.
  split; [vm_compute; reflexivity|]. split; [vm_compute; discriminate|].
  split; [vm_compute; reflexivity|]. split; vm_compute; reflexivity.
Qed.

(** ** One space between two words *)

Section SingleSpaces.
Context {U : ucd}.

Lemma spaced_from_word (b : bool) (w s : str) :
  nonempty w = true -> forallb notspace w = true ->
  spaced_from b (w ++ s) = spaced_from false s.
Proof.
  revert b. induction w as [|c w IH]; intros b Hne Hw; [discriminate|].
  cbn [forallb] in Hw. apply andb_prop in Hw as [Hc Hw].
  unfold notspace in Hc. apply negb_true_iff in Hc.
  cbn [app spaced_from]. rewrite Hc. destruct w as [|c' w'].
  - reflexivity.
  - apply IH; [reflexivity | exact Hw].
Qed.

Lemma spaced_join_words (b : bool) (w : str) (ws : list str) :
  forallb word (w :: ws) = true ->
  spaced_from b (join (s2l " ") (w :: ws)) = true.
Proof.
  revert b w. induction ws as [|w2 ws IH]; intros b w H; cbn [forallb] in H;
    apply andb_prop in H as [Hw Hws];
    unfold word in Hw; apply andb_prop in Hw as [Hne Hchars].
  - cbn [join]. rewrite <- (app_nil_r w), (spaced_from_word _ _ _ Hne Hchars).
    reflexivity.
  - change (join (s2l " ") (w :: w2 :: ws))
      with (w ++ 32 :: join (s2l " ") (w2 :: ws)).
    rewrite (spaced_from_word _ _ _ Hne Hchars). cbn [spaced_from].
    change (isspace 32) with true. cbv iota.
    rewrite N.eqb_refl. cbn [negb andb]. apply IH, Hws.
Qed.

Lemma single_spaced_join (ws : list str) :
  forallb word ws = true -> single_spaced (join (s2l " ") ws) = true.
Proof.
  destruct ws as [|w ws]; [reflexivity|]. intros H.
  pose proof (spaced_join_words true w ws H) as Hs.
  unfold single_spaced. destruct (join (s2l " ") (w :: ws)); [reflexivity | exact Hs].
Qed.

End SingleSpaces.

(** X3: for a city written in Latin-1, the normalised city is made of
    words with exactly one space (U+0020) between two of them: it has no
    white space at its ends, no white space other than U+0020 and no two
    spaces in a row, and splitting it gives back the capitalised words of
    the input, as many as the input has. *)
Theorem normalized_city_is_single_spaced {U : ucd} (city : str) :
  forallb is_latin1 city = true ->
  single_spaced (normalize_city city) = true
  /\ split (normalize_city city) = map capitalize (split city)
  /\ strip (normalize_city city) = normalize_city city
  /\ length (split (normalize_city city)) = length (split city).
Proof.
  intros Hl. pose proof (capitalized_words city Hl) as Hw.
  assert (Hs : split (normalize_city city) = map capitalize (split city)).
  { rewrite normalize_city_split. apply split_join_words, Hw. }
  split; [rewrite normalize_city_split; apply single_spaced_join, Hw|].
  split; [exact Hs|]. split.
  - rewrite normalize_city_split. apply strip_join_words, Hw.
  - rewrite Hs. apply length_map.
Qed.

Lemma normalized_city_is_single_spaced_witness :
  single_spaced (@normalize_city latin1_only (s2l "  s" ++ [0xE3] ++ s2l "o   paulo "))
  = true
  /\ split (@normalize_city latin1_only (s2l "  s" ++ [0xE3] ++ s2l "o   paulo "))
     = map (@capitalize latin1_only) (split (s2l "  s" ++ [0xE3] ++ s2l "o   paulo "))
  /\ strip (@normalize_city latin1_only (s2l "  s" ++ [0xE3] ++ s2l "o   paulo "))
     = @normalize_city latin1_only (s2l "  s" ++ [0xE3] ++ s2l "o   paulo ")
  /\ length (split (@normalize_city latin1_only (s2l "  s" ++ [0xE3] ++ s2l "o   paulo ")))
     = length (split (s2l "  s" ++ [0xE3] ++ s2l "o   paulo ")).
Proof.
  exact (@normalized_city_is_single_spaced latin1_only
           (s2l "  s" ++ [0xE3] ++ s2l "o   paulo ") eq_refl).
Defined.

(** X7: two complete destinations without path separators in their parts
    that differ in continent, country, city or file name get different
    destination paths from [os.path.join]. (The paths are compared as
    written: with "." or ".." for a part, two of them may still name one
    file.) *)
Theorem destination_file_injective
        (continent1 country1 city1 filename1 continent2 country2 city2 filename2 : str) :
  complete city1 country1 continent1 = true ->
  sep_free continent1 = true -> sep_free country1 = true ->
  sep_free city1 = true -> sep_free filename1 = true ->
  complete city2 country2 continent2 = true ->
  sep_free continent2 = true -> sep_free country2 = true ->
  sep_free city2 = true -> sep_free filename2 = true ->
  (continent1, country1, city1, filename1) <> (continent2, country2, city2, filename2) ->
  destination_file continent1 country1 city1 filename1
  <> destination_file continent2 country2 city2 filename2.
Proof.
  intros Hc1 Ha1 Hb1 Hd1 He1 Hc2 Ha2 Hb2 Hd2 He2 Hne Heq. apply Hne.
  apply (f_equal segments) in Heq.
  rewrite (layout_segments _ _ _ _ Hc1 Ha1 Hb1 Hd1 He1) in Heq.
  rewrite (layout_segments _ _ _ _ Hc2 Ha2 Hb2 Hd2 He2) in Heq.
  injection Heq as -> -> -> ->. reflexivity.
Qed.

Lemma destination_file_injective_witness :
  destination_file (s2l "EUROPE") (s2l "France") (s2l "Paris") (s2l "trip.pdf")
  <> destination_file (s2l "ASIA") (s2l "Japan") (s2l "Tokyo") (s2l "trip.pdf").
Proof.
  apply (destination_file_injective
           (s2l "EUROPE") (s2l "France") (s2l "Paris") (s2l "trip.pdf")
           (s2l "ASIA") (s2l "Japan") (s2l "Tokyo") (s2l "trip.pdf")
           eq_refl eq_refl eq_refl eq_refl eq_refl
           eq_refl eq_refl eq_refl eq_refl eq_refl).
  vm_compute. discriminate.
Defined.

(** ** The two names of a field *)

Section FieldNames.
Context {U : ucd} {E : env}.

(** A key is found wherever it stands, under what stands before it. *)
Lemma dict_lookup_app (k : str) (v : value) (pre post : list (str * value)) :
  has_key k pre = false -> dict_lookup k (pre ++ (k, v) :: post) = v.
Proof.
  induction pre as [|[k' v'] pre IH]; cbn [has_key existsb app dict_lookup fst].
  - intros _. rewrite bool_decide_eq_true_2 by reflexivity. reflexivity.
  - intros H. apply orb_false_elim in H as [Hk Hpre]. rewrite Hk. apply IH, Hpre.
Qed.

Lemma get_field_formula (items : list (str * value)) (k1 k2 : str) :
  get_field (VDict items) k1 k2
  = Ok (if truthy (dict_lookup k1 items) then dict_lookup k1 items
        else if truthy (dict_lookup k2 items) then dict_lookup k2 items
             else VStr []).
Proof.
  unfold get_field, py_or.
  destruct (truthy (dict_lookup k1 items)) eqn:H1; cbv iota;
    [rewrite H1; reflexivity|].
  destruct (truthy (dict_lookup k2 items)) eqn:H2; reflexivity.
Qed.

Lemma translate_key_other (k : str) :
  k <> s2l "cidade" -> k <> s2l "pais" -> k <> s2l "continente" ->
  translate_key k = k.
Proof.
  intros H1 H2 H3. unfold translate_key.
  rewrite !bool_decide_eq_false_2 by assumption. reflexivity.
Qed.

(** In a record without English names, what stood under the Portuguese
    name stands under the English one after the translation, and nothing
    stands under the Portuguese one. *)
Lemma dict_lookup_translate (items : list (str * value)) (pt en : str) :
  (pt, en) = (s2l "cidade", s2l "city")
  \/ (pt, en) = (s2l "pais", s2l "country")
  \/ (pt, en) = (s2l "continente", s2l "continent") ->
  forallb (fun kv => negb (english_key (fst kv))) items = true ->
  dict_lookup en (translate items) = dict_lookup pt items
  /\ dict_lookup pt (translate items) = VNone
  /\ dict_lookup en items = VNone.
Proof.
  intros Hpair. induction items as [|[k v] items IH]; [repeat split|].
  cbn [forallb fst]. intros H. apply andb_prop in H as [Hk Hitems].
  destruct (IH Hitems) as [IH1 [IH2 IH3]].
  cbn [translate map dict_lookup fst snd]. fold (translate items).
  apply negb_true_iff in Hk. unfold english_key in Hk.
  apply orb_false_elim in Hk as [Hk Hk3]. apply orb_false_elim in Hk as [Hk1 Hk2].
  apply bool_decide_eq_false in Hk1, Hk2, Hk3.
  destruct (decide (k = s2l "cidade")) as [->|Hn1];
    [|destruct (decide (k = s2l "pais")) as [->|Hn2];
      [|destruct (decide (k = s2l "continente")) as [->|Hn3]]].
  - destruct Hpair as [Hp|[Hp|Hp]]; injection Hp as -> ->;
      repeat split; assumption.
  - destruct Hpair as [Hp|[Hp|Hp]]; injection Hp as -> ->;
      repeat split; assumption.
  - destruct Hpair as [Hp|[Hp|Hp]]; injection Hp as -> ->;
      repeat split; assumption.
  - rewrite (translate_key_other _ Hn1 Hn2 Hn3).
    destruct Hpair as [Hp|[Hp|Hp]]; injection Hp as -> ->;
      rewrite !bool_decide_eq_false_2 by congruence;
      repeat split; assumption.
Qed.

End FieldNames.

(** X12: whatever a record holds, a field is the value under its English
    name when that value is true, else the value under its Portuguese name
    when that one is true, else the empty string; the English name is found
    wherever it stands in the record; and a record that uses no English name
    resolves as the same record with its Portuguese names put into
    English, whatever other keys it has. *)
Theorem localized_fields_are_read {U : ucd} {E : env}
        (items pre post : list (str * value)) (k1 k2 : str) (a : value) :
  get_field (VDict items) k1 k2
  = Ok (if truthy (dict_lookup k1 items) then dict_lookup k1 items
        else if truthy (dict_lookup k2 items) then dict_lookup k2 items
             else VStr [])
  /\ (has_key k1 pre = false -> truthy a = true ->
      get_field (VDict (pre ++ (k1, a) :: post)) k1 k2 = Ok a)
  /\ (forallb (fun kv => negb (english_key (fst kv))) items = true ->
      resolve (VDict (translate items)) = resolve (VDict items)).
Proof.
  split; [apply get_field_formula|]. split.
  - intros Hpre Ha. rewrite get_field_formula, (dict_lookup_app _ _ _ _ Hpre), Ha.
    reflexivity.
  - intros Hitems.
    destruct (dict_lookup_translate items (s2l "cidade") (s2l "city")
                (or_introl eq_refl) Hitems) as [Ha1 [Ha2 Ha3]].
    destruct (dict_lookup_translate items (s2l "pais") (s2l "country")
                (or_intror (or_introl eq_refl)) Hitems) as [Hb1 [Hb2 Hb3]].
    destruct (dict_lookup_translate items (s2l "continente") (s2l "continent")
                (or_intror (or_intror eq_refl)) Hitems) as [Hc1 [Hc2 Hc3]].
    unfold resolve. rewrite !get_field_formula.
    rewrite Ha1, Ha2, Ha3, Hb1, Hb2, Hb3, Hc1, Hc2, Hc3.
    cbn [truthy]. cbv iota.
    destruct (truthy (dict_lookup (s2l "cidade") items)),
             (truthy (dict_lookup (s2l "pais") items)),
             (truthy (dict_lookup (s2l "continente") items)); reflexivity.
Qed.

Lemma localized_fields_are_read_witness :
  get_field
    (VDict ([ (s2l "note", VStr (s2l "stopover")); (s2l "cidade", VStr (s2l "Lisboa")) ]
            ++ (s2l "city", VStr (s2l "Lisbon")) :: [ (s2l "pais", VStr (s2l "Portugal")) ]))
    (s2l "city") (s2l "cidade")
  = Ok (VStr (s2l "Lisbon"))
  /\ @resolve latin1_only
       (VDict (translate [ (s2l "note", VStr (s2l "stopover"));
                           (s2l "pais", VStr (s2l "Portugal"));
                           (s2l "cidade", VStr (s2l "lisboa"));
                           (s2l "days", VInt 3);
                           (s2l "continente", VStr (s2l "europe")) ]))
     = @resolve latin1_only
         (VDict [ (s2l "note", VStr (s2l "stopover"));
                  (s2l "pais", VStr (s2l "Portugal"));
                  (s2l "cidade", VStr (s2l "lisboa"));
                  (s2l "days", VInt 3);
                  (s2l "continente", VStr (s2l "europe")) ]).
Proof.
  split.
  - destruct (@localized_fields_are_read latin1_only Scenario.offline []
                [ (s2l "note", VStr (s2l "stopover")); (s2l "cidade", VStr (s2l "Lisboa")) ]
                [ (s2l "pais", VStr (s2l "Portugal")) ]
                (s2l "city") (s2l "cidade") (VStr (s2l "Lisbon")))
      as [_ [H _]].
    exact (H eq_refl eq_refl).
  - destruct (@localized_fields_are_read latin1_only Scenario.offline
                [ (s2l "note", VStr (s2l "stopover"));
                  (s2l "pais", VStr (s2l "Portugal"));
                  (s2l "cidade", VStr (s2l "lisboa"));
                  (s2l "days", VInt 3);
                  (s2l "continente", VStr (s2l "europe")) ]
                [] [] (s2l "city") (s2l "cidade") VNone)
      as [_ [_ H]].
    exact (H eq_refl).
Defined.
